(** * Melody preview generator: a shallow embedding of [main.py]

    The development embeds the handler [generate_melody_preview] of
    [main.py] together with the Python primitives it relies on:

    - [str] values are lists of Unicode code points, with [splitlines],
      [strip] and truthiness as CPython defines them;
    - [float] values are IEEE 754 binary64 numbers, taken from the
      Standard Library's [SpecFloat] at precision 53 and [emax = 1024];
      [+], [*] and [/] are the correctly rounded operations, [int(x)]
      truncates and [round(x, 3)] is the correctly rounded decimal rounding
      of CPython's [float.__round__];
    - exceptions are values of an error monad;
    - the pydantic models are records: building one from well-typed field
      values succeeds, and a request field left out takes the default of
      the class. *)

From Stdlib Require Import ZArith NArith List Bool Lia String Ascii Sorted.
From Stdlib Require Import SpecFloat.
Import ListNotations.
Local Open Scope Z_scope.

(** ** Exceptions *)

Inductive exn : Type :=
| OverflowError
| ValueError
| ZeroDivisionError.

Inductive result (A : Type) : Type :=
| Ok (a : A)
| Raise (e : exn).
Arguments Ok {A} a.
Arguments Raise {A} e.

Definition bind {A B : Type} (c : result A) (k : A -> result B) : result B :=
  match c with
  | Ok a => k a
  | Raise e => Raise e
  end.

Notation "x <- c ;; k" := (bind c (fun x => k))
  (at level 61, c at next level, right associativity).

(** [for x in l: st = body st x], stopping at the first exception. *)
Fixpoint for_each {S A : Type} (body : S -> A -> result S) (l : list A) (st : S)
  : result S :=
  match l with
  | [] => Ok st
  | x :: l' => st' <- body st x ;; for_each body l' st'
  end.

(** [range(n)] *)
Definition range (n : Z) : list Z := map Z.of_nat (seq 0 (Z.to_nat n)).

(** [enumerate(l)], counting from [start]. *)
Fixpoint enumerate_from {A : Type} (start : Z) (l : list A) : list (Z * A) :=
  match l with
  | [] => []
  | x :: l' => (start, x) :: enumerate_from (start + 1) l'
  end.

Definition enumerate {A : Type} (l : list A) : list (Z * A) := enumerate_from 0 l.

(** ** Python strings *)

Module PyStr.

(** A [str] is a sequence of Unicode code points. *)
Definition str : Type := list N.

Definition of_string (s : string) : str :=
  map N_of_ascii (list_ascii_of_string s).

Local Open Scope N_scope.

(** The line boundaries of [str.splitlines]: LF, VT, FF, CR, FS, GS, RS,
    NEL, LINE SEPARATOR and PARAGRAPH SEPARATOR. *)
Definition is_linebreak (c : N) : bool :=
  ((10 <=? c) && (c <=? 13)) || ((28 <=? c) && (c <=? 30))
  || (c =? 133) || (c =? 8232) || (c =? 8233).

(** The characters [str.strip()] removes (Unicode whitespace). *)
Definition isspace (c : N) : bool :=
  ((9 <=? c) && (c <=? 13)) || ((28 <=? c) && (c <=? 32))
  || (c =? 133) || (c =? 160) || (c =? 5760)
  || ((8192 <=? c) && (c <=? 8202))
  || (c =? 8232) || (c =? 8233) || (c =? 8239) || (c =? 8287)
  || (c =? 12288).

(** [splitlines]: [cur] holds the characters of the line being read, last
    one first.  CR LF counts as one boundary; a final line without a
    terminator is kept when it is not empty. *)
Fixpoint splitlines_from (cur : str) (s : str) : list str :=
  match s with
  | [] => match cur with [] => [] | _ => [rev cur] end
  | c :: rest =>
      if is_linebreak c then
        rev cur ::
          match rest with
          | c' :: rest' =>
              if (c =? 13) && (c' =? 10) then splitlines_from [] rest'
              else splitlines_from [] rest
          | [] => splitlines_from [] rest
          end
      else splitlines_from (c :: cur) rest
  end.

Definition splitlines (s : str) : list str := splitlines_from [] s.

Fixpoint lstrip (s : str) : str :=
  match s with
  | [] => []
  | c :: rest => if isspace c then lstrip rest else s
  end.

Definition rstrip (s : str) : str := rev (lstrip (rev s)).

Definition strip (s : str) : str := rstrip (lstrip s).

(** Truth value of a [str]: non-empty. *)
Definition truthy (s : str) : bool :=
  match s with [] => false | _ => true end.

End PyStr.

Import PyStr.

(** ** Python floats *)

Module PyFloat.

(** IEEE 754 binary64. *)
Definition float : Type := spec_float.
Definition prec : Z := 53.
Definition emax : Z := 1024.

(** [x + y] and [x * y]: correctly rounded, overflow gives an infinity. *)
Definition add (x y : float) : float := SFadd prec emax x y.
Definition mul (x y : float) : float := SFmul prec emax x y.

(** [x / y]: a zero divisor raises. *)
Definition truediv (x y : float) : result float :=
  match y with
  | S754_zero _ => Raise ZeroDivisionError
  | _ => Ok (SFdiv prec emax x y)
  end.

(** The nearest binary64 number to an integer (ties to even). *)
Definition of_Z (z : Z) : float := binary_normalize prec emax z 0 false.

(** Conversion of an [int] operand in mixed arithmetic;
    an [int] beyond the range of [float] raises. *)
Definition float_of_int (z : Z) : result float :=
  match of_Z z with
  | S754_infinity _ => Raise OverflowError
  | f => Ok f
  end.

(** [int(x)]: truncation toward zero. *)
Definition int_of_float (x : float) : result Z :=
  match x with
  | S754_zero _ => Ok 0
  | S754_infinity _ => Raise OverflowError
  | S754_nan => Raise ValueError
  | S754_finite s m e => Ok (cond_Zopp s (Z.shiftl (Z.pos m) e))
  end.

(** A decimal literal [n/d] with [d] a power of ten: the nearest
    binary64 number. *)
Definition literal (n d : positive) : float :=
  SFdiv prec emax (S754_finite false n 0) (S754_finite false d 0).

(** The integer nearest to [n / d], ties to the even one
    ([0 <= n], [0 < d]). *)
Definition rne_div (n d : Z) : Z :=
  let q := n / d in
  let r := n mod d in
  match 2 * r ?= d with
  | Lt => q
  | Eq => if Z.even q then q else q + 1
  | Gt => q + 1
  end.

(** [round(x, 3)]: the exact value of [x] is rounded to the nearest
    multiple of [1/1000] (ties to even), and that decimal is converted
    back to the nearest [float]; infinities and NaN round to themselves. *)
Definition round3 (x : float) : result float :=
  match x with
  | S754_finite s m e =>
      let k := match e with
               | Zneg p => rne_div (Z.pos m * 1000) (2 ^ Z.pos p)
               | _ => Z.pos m * 2 ^ e * 1000
               end in
      match k with
      | Zpos k' =>
          match SFdiv prec emax (S754_finite s k' 0) (S754_finite false 1000 0) with
          | S754_infinity _ => Raise OverflowError
          | r => Ok r
          end
      | _ => Ok (S754_zero s)
      end
  | _ => Ok x
  end.

End PyFloat.

Import PyFloat.

(** ** The request and response models *)

Record MelodyPreviewRequest : Type := {
  lyrics : str;
  tempo : option Z;
  key : option str;
  style : option str
}.

(** A field of the request body: left out, or given ([null] is [None]). *)
Inductive field (A : Type) : Type :=
| Absent
| Given (v : option A).
Arguments Absent {A}.
Arguments Given {A} v.

Definition field_default {A : Type} (f : field A) (default : A) : option A :=
  match f with
  | Absent => Some default
  | Given v => v
  end.

(** Construction of the request with the defaults of the class:
    [tempo = 96], [key = "C"], [style = "pop"]. *)
Definition MelodyPreviewRequest_init
  (lyrics_ : str) (tempo_ : field Z) (key_ style_ : field str)
  : MelodyPreviewRequest :=
  {| lyrics := lyrics_;
     tempo := field_default tempo_ 96;
     key := field_default key_ (of_string "C");
     style := field_default style_ (of_string "pop") |}.

Record TimestampItem : Type := {
  lineText : str;
  start_ms : Z;
  end_ms : Z
}.

(** One entry of [notes]: the dict with keys [midi], [time], [duration]. *)
Record Note : Type := {
  midi : Z;
  time : float;
  duration : float
}.

(** The dict [midiJson], keys [notes], [tempo], [key], [style]. *)
Record MidiJson : Type := {
  mj_notes : list Note;
  mj_tempo : option Z;
  mj_key : option str;
  mj_style : option str
}.

Record MelodyPreviewResponse : Type := {
  midiJson : MidiJson;
  guideAudioUrl : option str;
  timestamps : list TimestampItem
}.

(** ** The generator *)

(** [x or default] on an optional [int]: [None] and [0] are false. *)
Definition int_or (x : option Z) (default : Z) : Z :=
  match x with
  | None => default
  | Some 0 => default
  | Some n => n
  end.

(** [x or default] on a [str]. *)
Definition str_or (x : str) (default : str) : str :=
  if truthy x then x else default.

(** [[l.strip() for l in (req.lyrics or "").splitlines() if l.strip()]] *)
Definition lyric_lines (lyrics_ : str) : list str :=
  map strip (filter (fun l => truthy (strip l)) (splitlines (str_or lyrics_ []))).

Definition fallback_lines : list str :=
  [of_string "la la la"; of_string "dum dum"].

Definition lines_or_fallback (lyrics_ : str) : list str :=
  match lyric_lines lyrics_ with
  | [] => fallback_lines
  | ls => ls
  end.

(** [max(60, min(req.tempo or 96, 180))] *)
Definition effective_tempo (tempo_ : option Z) : Z :=
  Z.max 60 (Z.min (int_or tempo_ 96) 180).

(** [60.0 / max(60, min(req.tempo or 96, 180))] *)
Definition beat_sec_of (tempo_ : option Z) : result float :=
  d <- float_of_int (effective_tempo tempo_) ;;
  truediv (literal 60 1) d.

Definition midi_base : Z := 60.
Definition dur_beats : Z := 2.
Definition step : float := literal 5 10.

(** The state of the outer loop. *)
Record loop_state : Type := {
  t : float;
  timestamps_acc : list TimestampItem;
  notes_acc : list Note
}.

(** One turn of [for s in range(steps)]. *)
Definition note_body (beat_sec t_ : float) (i : Z) (notes : list Note) (s : Z)
  : result (list Note) :=
  let midi_ := midi_base + (i mod 5) * 2 + (s mod 3) in
  fs <- float_of_int s ;;
  time_ <- round3 (add t_ (mul (mul fs step) beat_sec)) ;;
  duration_ <- round3 (mul (mul step beat_sec) (literal 9 10)) ;;
  Ok (notes ++ [{| midi := midi_; time := time_; duration := duration_ |}]).

(** One turn of [for i, line in enumerate(lines)]. *)
Definition line_body (beat_sec : float) (st : loop_state) (il : Z * str)
  : result loop_state :=
  let '(i, line) := il in
  f1000 <- float_of_int 1000 ;;
  start <- int_of_float (mul (t st) f1000) ;;
  fdur <- float_of_int dur_beats ;;
  f1000' <- float_of_int 1000 ;;
  end_ <- int_of_float (mul (add (t st) (mul fdur beat_sec)) f1000') ;;
  let timestamps_ :=
    timestamps_acc st ++ [{| lineText := line; start_ms := start; end_ms := end_ |}] in
  fdur' <- float_of_int dur_beats ;;
  q <- truediv fdur' step ;;
  steps <- int_of_float q ;;
  notes_ <- for_each (note_body beat_sec (t st) i) (range steps) (notes_acc st) ;;
  fdur'' <- float_of_int dur_beats ;;
  Ok {| t := add (t st) (mul fdur'' beat_sec);
        timestamps_acc := timestamps_;
        notes_acc := notes_ |}.

Definition guide_audio_placeholder : str :=
  of_string "data:audio/wav;base64,UklGRiQAAABXQVZFZm10IBAAAAABAAEAESsAACJWAAACABYAAAAAAACAgICAgP//".

(** The handler; [MOCK_MODE] is the module-level flag read from the
    environment when the module is loaded. *)
Definition generate_melody_preview (MOCK_MODE : bool) (req : MelodyPreviewRequest)
  : result MelodyPreviewResponse :=
  let lines := lines_or_fallback (lyrics req) in
  beat_sec <- beat_sec_of (tempo req) ;;
  st <- for_each (line_body beat_sec)
          (enumerate lines)
          {| t := S754_zero false; timestamps_acc := []; notes_acc := [] |} ;;
  let midiJson_ := {| mj_notes := notes_acc st;
                      mj_tempo := tempo req;
                      mj_key := key req;
                      mj_style := style req |} in
  let guideAudioUrl_ := if MOCK_MODE then Some guide_audio_placeholder else None in
  Ok {| midiJson := midiJson_;
        guideAudioUrl := guideAudioUrl_;
        timestamps := st.(timestamps_acc) |}.

(** ** The diagnostics endpoint *)

(** An exception of class [Exception]: whether it is an [ImportError] (or
    a subclass), and its text [str(e)]. *)
Record py_exception : Type := {
  is_import_error : bool;
  message : str
}.

(** The outcome of reading the attribute [name] of [db]: [hasattr] is false
    when the attribute is missing, and lets any other exception through. *)
Inductive attr_outcome : Type :=
| NoAttr
| Attr (v : str)
| AttrRaises (e : py_exception).

(** The outcome of [db.list_collection_names()] followed by the slice. *)
Inductive call_outcome : Type :=
| Returns (names : list str)
| Raises (e : py_exception).

(** The object [db] of the module [database], which is not part of the
    sources: what [test_database] observes of it. *)
Record Database : Type := {
  db_name : attr_outcome;
  list_collection_names : call_outcome
}.

(** The outcome of [from database import db]; [db] may be [None]. *)
Inductive import_outcome : Type :=
| ImportRaises (e : py_exception)
| Imported (db : option Database).

(** The dict [response], with its six keys. *)
Record TestResponse : Type := {
  backend : str;
  database : str;
  database_url : option str;
  database_name : option str;
  connection_status : str;
  collections : list str
}.

Definition set_database (r : TestResponse) (v : str) : TestResponse :=
  {| backend := backend r; database := v; database_url := database_url r;
     database_name := database_name r; connection_status := connection_status r;
     collections := collections r |}.

Definition set_database_url (r : TestResponse) (v : option str) : TestResponse :=
  {| backend := backend r; database := database r; database_url := v;
     database_name := database_name r; connection_status := connection_status r;
     collections := collections r |}.

Definition set_database_name (r : TestResponse) (v : option str) : TestResponse :=
  {| backend := backend r; database := database r; database_url := database_url r;
     database_name := v; connection_status := connection_status r;
     collections := collections r |}.

Definition set_connection_status (r : TestResponse) (v : str) : TestResponse :=
  {| backend := backend r; database := database r; database_url := database_url r;
     database_name := database_name r; connection_status := v;
     collections := collections r |}.

Definition set_collections (r : TestResponse) (v : list str) : TestResponse :=
  {| backend := backend r; database := database r; database_url := database_url r;
     database_name := database_name r; connection_status := connection_status r;
     collections := v |}.

(** The characters of the status marks: U+2705, U+274C, and U+26A0 with
    the variation selector U+FE0F. *)
Definition check_mark : str := [9989%N].
Definition cross_mark : str := [10060%N].
Definition warning_sign : str := [9888%N; 65039%N].

(** [os.getenv(name)] is true when the variable is set and not empty. *)
Definition getenv_truthy (environ : string -> option str) (name : string) : bool :=
  match environ name with
  | Some v => truthy v
  | None => false
  end.

(** The handlers of the outer [try]: [except ImportError], then
    [except Exception as e]. *)
Definition on_exception (r : TestResponse) (e : py_exception) : TestResponse :=
  if is_import_error e then
    set_database r
      (cross_mark ++ of_string " Database module not found (run enable-database first)")
  else
    set_database r (cross_mark ++ of_string " Error: " ++ firstn 50 (message e)).

(** The handler [test_database]; [import_db] is what importing [db] gives
    and [environ] the process environment. *)
Definition test_database (import_db : import_outcome) (environ : string -> option str)
  : TestResponse :=
  let response :=
    {| backend := check_mark ++ of_string " Running";
       database := cross_mark ++ of_string " Not Available";
       database_url := None;
       database_name := None;
       connection_status := of_string "Not Connected";
       collections := [] |} in
  let response :=
    match import_db with
    | ImportRaises e => on_exception response e
    | Imported None =>
        set_database response
          (warning_sign ++ of_string "  Available but not initialized")
    | Imported (Some db) =>
        let response := set_database response (check_mark ++ of_string " Available") in
        let response :=
          set_database_url response (Some (check_mark ++ of_string " Configured")) in
        match db_name db with
        | AttrRaises e => on_exception response e
        | name_ =>
            let response :=
              set_database_name response
                (Some match name_ with
                      | Attr v => v
                      | _ => check_mark ++ of_string " Connected"
                      end) in
            let response := set_connection_status response (of_string "Connected") in
            match list_collection_names db with
            | Returns names =>
                let response := set_collections response (firstn 10 names) in
                set_database response (check_mark ++ of_string " Connected & Working")
            | Raises e =>
                set_database response
                  (warning_sign ++ of_string "  Connected but Error: "
                   ++ firstn 50 (message e))
            end
        end
    end in
  let response :=
    set_database_url response
      (Some (if getenv_truthy environ "DATABASE_URL"
             then check_mark ++ of_string " Set"
             else cross_mark ++ of_string " Not Set")) in
  let response :=
    set_database_name response
      (Some (if getenv_truthy environ "DATABASE_NAME"
             then check_mark ++ of_string " Set"
             else cross_mark ++ of_string " Not Set")) in
  response.

(** * Definitions used by the proofs *)

(** Bookkeeping for [n] right shifts of [m0]: the quotient is the mantissa
    of the record, and the two location bits say how the remainder [R]
    compares with half of [2 ^ n]. *)
Definition shr_inv (m0 : Z) (n : nat) (mrs : shr_record) : Prop :=
  exists R : Z,
    0 <= R < 2 ^ Z.of_nat n /\
    0 <= shr_m mrs /\
    m0 = shr_m mrs * 2 ^ Z.of_nat n + R /\
    shr_r mrs = (2 ^ Z.of_nat n <=? 2 * R) /\
    shr_s mrs = negb ((R =? 0) || (2 * R =? 2 ^ Z.of_nat n)).

(** Rounding of the value [m * 2 ^ e], for a mantissa [m] of at least 53
    bits, to a 53-bit mantissa and its exponent (nearest, ties to even). *)
Definition round_norm (m e : Z) : Z * Z :=
  let k := Z.log2 m - 52 in
  let q := rne_div m (2 ^ k) in
  if q =? 2 ^ 53 then (2 ^ 52, e + k + 1) else (q, e + k).

(** A float that is a zero or a finite number of sign [sx]. *)
Definition zero_or_finite (sx : bool) (x : float) : Prop :=
  match x with
  | S754_zero s => s = sx
  | S754_finite s _ e => s = sx /\ e <= 971
  | _ => False
  end.

(** Rounding to 53 significant bits on non-negative integers: the values
    of binary64 numbers in units of a fixed negative power of two. *)
Definition rnd (N : Z) : Z :=
  let k := Z.max 0 (Z.log2 N - 52) in
  rne_div N (2 ^ k) * 2 ^ k.

(** The value of a non-negative float in units of [2 ^ (- U)]. *)
Definition val (U : Z) (x : float) : Z :=
  match x with
  | S754_finite false m e => Z.pos m * 2 ^ (e + U)
  | _ => 0
  end.

(** A positive float with a full 53-bit mantissa and a moderate exponent. *)
Definition normal (x : float) : Prop :=
  match x with
  | S754_finite false m e => 2 ^ 52 <= Z.pos m < 2 ^ 53 /\ -200 <= e <= 200
  | _ => False
  end.

(** The floats the running cursor [t] and the note times range over:
    [+0.0], or a positive normal number of value at most [2 ^ 54]. *)
Definition in_range (x : float) : Prop :=
  x = S754_zero false \/ (normal x /\ val 200 x <= 2 ^ 254).

(** [int(x * 1000)] as a function of the value of [x]. *)
Definition ms_val (v : Z) : Z := rnd (v * val 200 (of_Z 1000)) / 2 ^ 400.

(** What is added to the cursor: [+0.0], or a positive normal number of
    value at most [2]. *)
Definition small_addend (c : float) : Prop :=
  c = S754_zero false \/ (normal c /\ val 200 c <= 2 ^ 201).

(** Boolean versions of [normal] and [small_addend], to be evaluated. *)
Definition is_normal (x : float) : bool :=
  match x with
  | S754_finite false m e =>
      (2 ^ 52 <=? Z.pos m) && (Z.pos m <? 2 ^ 53) && (-200 <=? e) && (e <=? 200)
  | _ => false
  end.

Definition is_small_addend (c : float) : bool :=
  match c with
  | S754_zero false => true
  | _ => is_normal c && (val 200 c <=? 2 ^ 201)
  end.

Definition is_ok {A : Type} (r : result A) : bool :=
  match r with Ok _ => true | Raise _ => false end.

Definition value_or {A : Type} (r : result A) (default : A) : A :=
  match r with Ok a => a | Raise _ => default end.

(** [60.0 / T] *)
Definition beat_at (T : Z) : result float :=
  d <- float_of_int T ;; truediv (literal 60 1) d.

(** What the loop needs of the beat length [b]: the line length
    [dur_beats * b] and the four step offsets [s * step * b] are small
    addends, and the note duration rounds. *)
Definition beat_check (b : float) : bool :=
  is_small_addend (mul (of_Z dur_beats) b)
  && forallb (fun s => is_small_addend (mul (mul (of_Z s) step) b)) (range 4)
  && is_ok (round3 (mul (mul step b) (literal 9 10))).

Definition tempo_check (T : Z) : bool :=
  match beat_at T with
  | Ok b => beat_check b
  | Raise _ => false
  end.

(** The cursor after [i] lines: [t += dur_beats * beat_sec], [i] times. *)
Definition advance (b t_ : float) : float := add t_ (mul (of_Z dur_beats) b).

Definition cursor (b : float) (i : nat) : float :=
  Nat.iter i (advance b) (S754_zero false).

(** The note of line [i] (cursor [t_]) and step [s]. *)
Definition note_of (b t_ : float) (i s : Z) : Note :=
  {| midi := midi_base + (i mod 5) * 2 + (s mod 3);
     time := value_or (round3 (add t_ (mul (mul (of_Z s) step) b))) t_;
     duration := value_or (round3 (mul (mul step b) (literal 9 10))) t_ |}.

(** [int(t * 1000)] *)
Definition ms_of (t_ : float) : Z :=
  value_or (int_of_float (mul t_ (of_Z 1000))) 0.

(** The timestamps and notes of [lines], the first of them being line [i]. *)
Fixpoint timestamps_from (b : float) (i : nat) (lines : list str)
  : list TimestampItem :=
  match lines with
  | [] => []
  | line :: rest =>
      {| lineText := line;
         start_ms := ms_of (cursor b i);
         end_ms := ms_of (cursor b (S i)) |} :: timestamps_from b (S i) rest
  end.

Fixpoint notes_from (b : float) (i : nat) (lines : list str) : list Note :=
  match lines with
  | [] => []
  | _ :: rest =>
      map (note_of b (cursor b i) (Z.of_nat i)) (range 4)
        ++ notes_from b (S i) rest
  end.

(** All the millisecond values of a timestamp list, in order:
    [start_ms] and [end_ms] of the first entry, then of the second, ... *)
Definition ms_values (l : list TimestampItem) : list Z :=
  flat_map (fun ts => [start_ms ts; end_ms ts]) l.

(** [clamp(x, lo, hi)], as the specification words it. *)
Definition clamp_spec (x lo hi : Z) : Z :=
  if x <? lo then lo else if hi <? x then hi else x.

(** The requested tempo, [96] when it is missing, as the specification
    words it. *)
Definition tempo_or_default_spec (tempo_ : option Z) : Z :=
  match tempo_ with
  | Some T => T
  | None => 96
  end.

(** A request with the default key and style. *)
Definition request (l : str) (tempo_ : option Z) : MelodyPreviewRequest :=
  {| lyrics := l;
     tempo := tempo_;
     key := Some (of_string "C");
     style := Some (of_string "pop") |}.

(** ["Hello\nWorld"] *)
Definition hello_world : str :=
  of_string "Hello" ++ [10%N] ++ of_string "World".

(** * Definitions used by the further properties *)

(** The time window of a timestamp entry. *)
Definition window (ts : TimestampItem) : Z * Z := (start_ms ts, end_ms ts).

(** A string without any line boundary. *)
Definition no_linebreak (l : str) : bool :=
  forallb (fun c => negb (is_linebreak c)) l.

(** ["\n".join(lines)] *)
Fixpoint join_lines (lines : list str) : str :=
  match lines with
  | [] => []
  | [l] => l
  | l :: rest => l ++ 10%N :: join_lines rest
  end.

(** The line kept by the comprehension of [lyric_lines]. *)
Definition nonblank (l : str) : bool := truthy (strip l).

(** A float that is [+0.0] or finite and positive: neither negative, nor
    an infinity, nor NaN. *)
Definition finite_nonneg (x : float) : bool :=
  match x with
  | S754_zero false => true
  | S754_finite false _ _ => true
  | _ => false
  end.

(** [x <= y] on floats, as Python compares them. *)
Definition float_le (x y : float) : bool := SFleb x y.

(** Further facts of the beat length [b], to be evaluated: [b] is normal,
    the first step offset is [+0.0], the line length [dur_beats * b] is at
    least [2/3] and the note duration lies between [0.15] and [0.45]. *)
Definition beat_check_more (b : float) : bool :=
  is_normal b
  && match mul (mul (of_Z 0) step) b with S754_zero false => true | _ => false end
  && (2 ^ 201 <=? 3 * val 200 (mul (of_Z dur_beats) b) + 2 ^ 150)
  && match round3 (mul (mul step b) (literal 9 10)) with
     | Ok d => finite_nonneg d && float_le (literal 15 100) d && float_le d (literal 45 100)
     | Raise _ => false
     end.

Definition tempo_check_more (T : Z) : bool :=
  match beat_at T with
  | Ok b => beat_check_more b
  | Raise _ => false
  end.

Definition all_tempos : list Z := map (fun n => 60 + Z.of_nat n) (seq 0 121).

(** A faster tempo does not give a longer beat. *)
Definition beat_pair_check (p p' : Z * result float) : bool :=
  match snd p, snd p' with
  | Ok b, Ok b' => (fst p' <? fst p) || float_le b' b
  | _, _ => false
  end.

Definition tempo_pair_check (T T' : Z) : bool :=
  beat_pair_check (T, beat_at T) (T', beat_at T').

(** The beat lengths of the tempi 60 to 180, evaluated once. *)
Definition all_beats : list (Z * result float) :=
  Eval vm_compute in map (fun T => (T, beat_at T)) all_tempos.

(** The tempi whose line length [120 / T] seconds is a binary fraction. *)
Definition binary_tempos : list Z := [60; 64; 80; 96; 120; 128; 160].

(** For such a tempo [T] the line length [dur_beats * (60.0 / T)] is
    exactly [120 / T], that is [(122880 / T) * 2 ^ (-10)]. *)
Definition binary_tempo_check (T : Z) : bool :=
  (122880 mod T =? 0)
  && match beat_at T with
     | Ok b => val 200 (mul (of_Z dur_beats) b) =? 122880 / T * 2 ^ 190
     | Raise _ => false
     end.

(** The location bits of a record whose mantissa is the quotient of [A] by
    [B]: how the remainder [R] compares with half of [B]. *)
Definition loc_inv (A B : Z) (mrs : shr_record) : Prop :=
  exists R : Z,
    0 <= R < B /\
    0 <= shr_m mrs /\
    A = shr_m mrs * B + R /\
    shr_r mrs = (B <=? 2 * R) /\
    shr_s mrs = negb ((R =? 0) || (2 * R =? B)).

(** The step offsets [s * step * b] grow with [s] and stay below the line
    length [dur_beats * b]. *)
Definition offsets_check (b : float) : bool :=
  let offset s := val 200 (mul (mul (of_Z s) step) b) in
  (offset 0 <=? offset 1) && (offset 1 <=? offset 2) && (offset 2 <=? offset 3)
  && (offset 3 <=? val 200 (mul (of_Z dur_beats) b)).

Definition tempo_offsets_check (T : Z) : bool :=
  match beat_at T with
  | Ok b => offsets_check b
  | Raise _ => false
  end.

(** The note duration [round(step * b * 0.9, 3)] is a normal float,
    shorter by at least 2 ms than the distance between two step offsets
    and than the distance from the last offset to the end of the line. *)
Definition gap_check (b : float) : bool :=
  let offset s := val 200 (mul (mul (of_Z s) step) b) in
  match round3 (mul (mul step b) (literal 9 10)) with
  | Ok d =>
      is_normal d
      && forallb (fun s => 2 ^ 201 <=? 1000 * (offset (s + 1) - offset s - val 200 d))
           (range 3)
      && (2 ^ 201 <=? 1000 * (val 200 (mul (of_Z dur_beats) b) - offset 3 - val 200 d))
  | Raise _ => false
  end.

Definition tempo_gap_check (T : Z) : bool :=
  match beat_at T with
  | Ok b => gap_check b
  | Raise _ => false
  end.

(** * The Python primitives on examples *)

(** ["a\r\nb\n"] has two lines; an empty line between two breaks is kept;
    the empty string has no line. *)
Example splitlines_crlf :
  splitlines (of_string "a" ++ [13; 10]%N ++ of_string "b" ++ [10]%N)
  = [of_string "a"; of_string "b"].
Proof. reflexivity. Qed.

Example splitlines_blank_line :
  splitlines (of_string "a" ++ [10; 10]%N ++ of_string "b")
  = [of_string "a"; []; of_string "b"].
Proof. reflexivity. Qed.

Example splitlines_empty : splitlines [] = [].
Proof. reflexivity. Qed.

Example strip_both_ends :
  strip ([32; 9]%N ++ of_string "x y" ++ [32; 160]%N) = of_string "x y".
Proof. reflexivity. Qed.

(** Blank lines are dropped and the others trimmed. *)
Example lyric_lines_example :
  lyric_lines (of_string "  Hello " ++ [10]%N ++ of_string "   " ++ [13; 10]%N
               ++ of_string "World" ++ [10]%N)
  = [of_string "Hello"; of_string "World"].
Proof. reflexivity. Qed.

(** [60.0 / 120] is [0.5], [int(1.9999)] is [1], [int(-1.5)] is [-1]. *)
Example beat_at_120 : beat_at 120 = Ok (S754_finite false 4503599627370496 (-53)).
Proof. vm_compute. reflexivity. Qed.

Example int_truncates :
  int_of_float (literal 19999 10000) = Ok 1 /\
  int_of_float (SFopp (literal 15 10)) = Ok (-1).
Proof. split; vm_compute; reflexivity. Qed.

(** [round(0.0625, 3)] is [0.062] and [round(0.1875, 3)] is [0.188]: both
    are exact ties, and go to the even neighbour; [round(0.225, 3)] is
    [0.225]; [round(1e-4, 3)] is [0.0]. *)
Example round3_ties :
  round3 (literal 625 10000) = Ok (literal 62 1000) /\
  round3 (literal 1875 10000) = Ok (literal 188 1000) /\
  round3 (literal 225 1000) = Ok (literal 225 1000) /\
  round3 (literal 1 10000) = Ok (S754_zero false).
Proof. repeat split; vm_compute; reflexivity. Qed.

(** [0.1 + 0.2] is not [0.3] but the next float, [0.30000000000000004]. *)
Example add_rounds :
  add (literal 1 10) (literal 2 10) = literal 30000000000000004 100000000000000000 /\
  add (literal 1 10) (literal 2 10) <> literal 3 10.
Proof. split; vm_compute; [reflexivity | discriminate]. Qed.

(** * Binary64 arithmetic on integers

    The rounding performed by [binary_round_aux] is related to a rounding
    function on integers, [rnd], which acts on values scaled by a power of
    two. *)

Section Digits.

Lemma digits2_pos_size (p : positive) : digits2_pos p = Pos.size p.
Proof. induction p; simpl; congruence. Qed.

Lemma Zdigits2_log2 (p : positive) :
  Z.pos (digits2_pos p) = Z.log2 (Z.pos p) + 1.
Proof.
  rewrite digits2_pos_size. destruct p; simpl; lia.
Qed.

Lemma log2_bounds (m n : Z) :
  0 <= n -> 2 ^ n <= m < 2 ^ (n + 1) -> Z.log2 m = n.
Proof. intros Hn H. apply Z.log2_unique; assumption. Qed.

Lemma log2_spec_pos (m : Z) :
  0 < m -> 2 ^ Z.log2 m <= m < 2 ^ (Z.log2 m + 1).
Proof. intros H. pose proof (Z.log2_spec m H). lia. Qed.

Lemma log2_mul_pow2 (m j : Z) :
  0 < m -> 0 <= j -> Z.log2 (m * 2 ^ j) = Z.log2 m + j.
Proof. intros Hm Hj. rewrite Z.log2_mul_pow2 by assumption. lia. Qed.

End Digits.

Section ShiftRight.

Lemma iter_pos_nat {A : Type} (f : A -> A) (p : positive) (x : A) :
  iter_pos f p x = Nat.iter (Pos.to_nat p) f x.
Proof.
  revert x. induction p as [p IH | p IH |]; intros x; cbn [iter_pos].
  - rewrite !IH, Pos2Nat.inj_xI.
    replace (S (2 * Pos.to_nat p)) with (Pos.to_nat p + S (Pos.to_nat p))%nat by lia.
    rewrite Nat.iter_add, Nat.iter_succ_r. reflexivity.
  - rewrite !IH, Pos2Nat.inj_xO.
    replace (2 * Pos.to_nat p)%nat with (Pos.to_nat p + Pos.to_nat p)%nat by lia.
    rewrite Nat.iter_add. reflexivity.
  - reflexivity.
Qed.

Lemma shr_1_nonneg (m : Z) (r s : bool) :
  0 <= m ->
  shr_1 {| shr_m := m; shr_r := r; shr_s := s |}
  = {| shr_m := m / 2; shr_r := Z.odd m; shr_s := r || s |}.
Proof.
  intros Hm. rewrite <- Z.div2_div.
  destruct m as [| p | p]; [reflexivity | destruct p; reflexivity | lia].
Qed.

Lemma shr_1_m (mrs : shr_record) :
  0 <= shr_m mrs -> shr_m (shr_1 mrs) = shr_m mrs / 2.
Proof.
  destruct mrs as [m r s]. intros Hm. cbn [shr_m] in Hm.
  rewrite shr_1_nonneg by assumption. reflexivity.
Qed.

(** The mantissa after [n] shifts, whatever the location bits. *)
Lemma shr_iter_m (n : nat) (mrs : shr_record) :
  0 <= shr_m mrs ->
  shr_m (Nat.iter n shr_1 mrs) = shr_m mrs / 2 ^ Z.of_nat n.
Proof.
  intros Hm. induction n as [| n IH].
  - simpl. rewrite Z.div_1_r. reflexivity.
  - rewrite Nat.iter_succ, shr_1_m.
    + rewrite IH, Nat2Z.inj_succ, Z.pow_succ_r by lia.
      rewrite Z.div_div by lia. f_equal. lia.
    + rewrite IH. apply Z.div_pos; lia.
Qed.

Lemma shr_inv_iter (m0 : Z) (n : nat) :
  0 <= m0 ->
  shr_inv m0 n (Nat.iter n shr_1 {| shr_m := m0; shr_r := false; shr_s := false |}).
Proof.
  intros Hm0. induction n as [| n IH].
  - exists 0. cbn. repeat split; lia.
  - rewrite Nat.iter_succ.
    destruct (Nat.iter n shr_1 _) as [sm r s].
    destruct IH as (R & HR & Hsm & Heq & Hr & Hs). cbn [shr_m shr_r shr_s] in *.
    rewrite shr_1_nonneg by assumption. unfold shr_inv.
    rewrite Nat2Z.inj_succ, Z.pow_succ_r by lia.
    pose proof (Z.pow_pos_nonneg 2 (Z.of_nat n) ltac:(lia) ltac:(lia)) as HP.
    set (P := 2 ^ Z.of_nat n) in *.
    pose proof (Z.div_mod sm 2 ltac:(lia)) as Hdm.
    pose proof (Zmod_odd sm) as Hodd.
    assert (0 <= sm / 2) as Hq by (apply Z.div_pos; lia).
    exists (R + (if Z.odd sm then P else 0)). cbn [shr_m shr_r shr_s].
    subst r s.
    destruct (Z.odd sm);
      destruct (Z.leb_spec P (2 * R)); destruct (Z.eqb_spec R 0);
      destruct (Z.eqb_spec (2 * R) P);
      repeat match goal with
        | |- context [Z.leb ?a ?b] => destruct (Z.leb_spec a b)
        | |- context [Z.eqb ?a ?b] => destruct (Z.eqb_spec a b)
        end;
      cbn [negb orb]; repeat split; try reflexivity; try lia.
Qed.

(** Rounding the shifted mantissa by its location bits is rounding the
    quotient [m0 / 2 ^ n] to the nearest integer, ties to even. *)
Lemma round_shr (m0 : Z) (n : nat) (mrs : shr_record) :
  shr_inv m0 n mrs ->
  round_nearest_even (shr_m mrs) (loc_of_shr_record mrs)
  = rne_div m0 (2 ^ Z.of_nat n).
Proof.
  intros (R & HR & Hsm & Heq & Hr & Hs).
  pose proof (Z.pow_pos_nonneg 2 (Z.of_nat n) ltac:(lia) ltac:(lia)) as HP.
  set (P := 2 ^ Z.of_nat n) in *.
  assert (m0 / P = shr_m mrs) as Hq
    by (symmetry; apply (Z.div_unique m0 P (shr_m mrs) R); lia).
  assert (m0 mod P = R) as Hrem
    by (symmetry; apply (Z.mod_unique m0 P (shr_m mrs) R); lia).
  unfold rne_div. rewrite Hq, Hrem.
  destruct mrs as [sm r s]. cbn [shr_m shr_r shr_s] in *. subst r s.
  destruct (Z.compare_spec (2 * R) P);
    destruct (Z.leb_spec P (2 * R)); destruct (Z.eqb_spec R 0);
    destruct (Z.eqb_spec (2 * R) P); cbn [negb orb loc_of_shr_record round_nearest_even];
    try reflexivity; try lia.
Qed.

End ShiftRight.

Section RoundAux.

Lemma shr_nat (mrs : shr_record) (e n : Z) :
  shr mrs e n = (Nat.iter (Z.to_nat n) shr_1 mrs, e + Z.max n 0).
Proof.
  destruct n as [| p | p]; cbn [shr Z.to_nat Nat.iter];
    rewrite ?iter_pos_nat; f_equal; lia.
Qed.

Lemma rne_div_range (n d : Z) :
  n / d <= rne_div n d <= n / d + 1.
Proof.
  unfold rne_div.
  destruct (2 * (n mod d) ?= d); [destruct (Z.even (n / d)) | |]; lia.
Qed.

Lemma rne_div_1 (n : Z) : rne_div n 1 = n.
Proof.
  unfold rne_div. rewrite Z.div_1_r, Z.mod_1_r. reflexivity.
Qed.

Lemma round_nearest_even_range (m : Z) (l : location) :
  m <= round_nearest_even m l <= m + 1.
Proof.
  destruct l as [| []]; cbn [round_nearest_even]; try lia.
  destruct (Z.even m); lia.
Qed.

Lemma fexp_normal (z : Z) :
  -1074 <= z - 53 -> fexp prec emax z = z - 53.
Proof. unfold fexp, SpecFloat.emin, prec, emax. lia. Qed.

Lemma fexp_ge (z : Z) : z - 53 <= fexp prec emax z /\ -1074 <= fexp prec emax z.
Proof. unfold fexp, SpecFloat.emin, prec, emax. lia. Qed.

Lemma fexp_le (z b : Z) : z - 53 <= b -> -1074 <= b -> fexp prec emax z <= b.
Proof. unfold fexp, SpecFloat.emin, prec, emax. lia. Qed.

Lemma Zdigits2_pos_log2 (m : Z) : 0 < m -> Zdigits2 m = Z.log2 m + 1.
Proof.
  destruct m as [| p | p]; try lia. intros _. apply Zdigits2_log2.
Qed.

Lemma Zdigits2_le (m : Z) : 0 <= m -> Zdigits2 m <= Z.log2 m + 1.
Proof.
  destruct m as [| p | p]; try lia; intros _.
  - cbn. lia.
  - rewrite Zdigits2_pos_log2 by lia. lia.
Qed.

Lemma pow2_pos (n : Z) : 0 <= n -> 0 < 2 ^ n.
Proof. intros H. apply Z.pow_pos_nonneg; lia. Qed.

(** A mantissa of at least 53 bits, shifted down to exactly 53. *)
Lemma normal_quotient (m : Z) :
  2 ^ 52 <= m ->
  0 <= Z.log2 m - 52 /\ 2 ^ 52 <= m / 2 ^ (Z.log2 m - 52) < 2 ^ 53.
Proof.
  intros Hm.
  assert (0 < m) as Hpos by (pose proof (pow2_pos 52); lia).
  assert (52 <= Z.log2 m) as Hlog.
  { rewrite <- (Z.log2_pow2 52) by lia. apply Z.log2_le_mono. assumption. }
  pose proof (log2_spec_pos m Hpos) as [Hlo Hhi].
  set (k := Z.log2 m - 52) in *.
  pose proof (pow2_pos k ltac:(lia)) as Hk.
  replace (Z.log2 m) with (52 + k) in Hlo by lia.
  replace (Z.log2 m + 1) with (53 + k) in Hhi by lia.
  rewrite Z.pow_add_r in Hlo, Hhi by lia.
  split; [lia |]. split.
  - apply Z.div_le_lower_bound; lia.
  - apply Z.div_lt_upper_bound; lia.
Qed.

Lemma round_norm_mantissa (m e : Z) :
  2 ^ 52 <= m -> 2 ^ 52 <= fst (round_norm m e) < 2 ^ 53.
Proof.
  intros Hm. destruct (normal_quotient m Hm) as [Hk Hq].
  pose proof (rne_div_range m (2 ^ (Z.log2 m - 52))) as Hr.
  unfold round_norm.
  destruct (Z.eqb_spec (rne_div m (2 ^ (Z.log2 m - 52))) (2 ^ 53));
    cbn [fst]; lia.
Qed.

Lemma binary_round_aux_exact (m e : Z) :
  2 ^ 52 <= m ->
  -1074 <= e + (Z.log2 m - 52) ->
  e + (Z.log2 m - 52) + 1 <= 971 ->
  binary_round_aux prec emax false m e loc_Exact
  = S754_finite false (Z.to_pos (fst (round_norm m e))) (snd (round_norm m e)).
Proof.
  intros Hm Hlo Hhi.
  destruct (normal_quotient m Hm) as [Hk Hq].
  pose proof (rne_div_range m (2 ^ (Z.log2 m - 52))) as Hr.
  assert (0 < m) as Hpos by (pose proof (pow2_pos 52); lia).
  unfold round_norm, binary_round_aux, shr_fexp.
  set (k := Z.log2 m - 52) in *.
  rewrite (Zdigits2_pos_log2 m Hpos), fexp_normal by lia.
  replace (Z.log2 m + 1 + e - 53 - e) with k by lia.
  cbn [shr_record_of_loc]. rewrite shr_nat, Z.max_l by lia.
  rewrite (round_shr m (Z.to_nat k)) by (apply shr_inv_iter; lia).
  rewrite Z2Nat.id by lia.
  set (q := rne_div m (2 ^ k)) in *.
  destruct (Z.eqb_spec q (2 ^ 53)) as [Hq53 | Hq53].
  - rewrite Hq53. cbn [fst snd].
    replace (Zdigits2 (2 ^ 53)) with 54 by reflexivity.
    rewrite fexp_normal by lia.
    replace (54 + (e + k) - 53 - (e + k)) with 1 by lia.
    cbn [shr_record_of_loc shr iter_pos].
    replace (shr_1 {| shr_m := 2 ^ 53; shr_r := false; shr_s := false |})
      with {| shr_m := 2 ^ 52; shr_r := false; shr_s := false |} by reflexivity.
    cbn [shr_m].
    replace (2 ^ 52) with (Z.pos (Z.to_pos (2 ^ 52))) at 1 by reflexivity.
    cbv iota beta.
    destruct (Z.leb_spec (e + k + 1) (emax - prec)) as [_ | Hbad];
      [reflexivity | unfold emax, prec in Hbad; lia].
  - cbn [fst snd].
    assert (Z.log2 q = 52) as Hlogq by (apply log2_bounds; lia).
    assert (0 < q) as Hqpos by (pose proof (pow2_pos 52); lia).
    rewrite (Zdigits2_pos_log2 q Hqpos), Hlogq, fexp_normal by lia.
    replace (52 + 1 + (e + k) - 53 - (e + k)) with 0 by lia.
    cbn [shr_record_of_loc shr shr_m].
    rewrite <- (Z2Pos.id q Hqpos) at 1. cbv iota beta.
    destruct (Z.leb_spec (e + k) (emax - prec)) as [_ | Hbad];
      [reflexivity | unfold emax, prec in Hbad; lia].
Qed.

(** Whatever the location, rounding a mantissa of moderate size at a
    moderate exponent does not overflow. *)
Lemma binary_round_aux_finite (sx : bool) (m e : Z) (l : location) :
  0 <= m -> Z.log2 m <= 200 -> e <= 200 ->
  zero_or_finite sx (binary_round_aux prec emax sx m e l).
Proof.
  intros Hm Hlog He.
  unfold binary_round_aux, shr_fexp.
  rewrite !shr_nat.
  pose proof (Zdigits2_le m Hm) as Hd0.
  set (n1 := fexp prec emax (Zdigits2 m + e) - e).
  assert (shr_m (Nat.iter (Z.to_nat n1) shr_1 (shr_record_of_loc m l))
          = m / 2 ^ Z.of_nat (Z.to_nat n1)) as Hm1.
  { rewrite shr_iter_m; destruct l as [| []]; cbn [shr_record_of_loc shr_m];
      try reflexivity; lia. }
  set (mrs1 := Nat.iter (Z.to_nat n1) shr_1 (shr_record_of_loc m l)) in *.
  pose proof (round_nearest_even_range (shr_m mrs1) (loc_of_shr_record mrs1)) as Hq1.
  set (q1 := round_nearest_even (shr_m mrs1) (loc_of_shr_record mrs1)) in *.
  pose proof (pow2_pos (Z.of_nat (Z.to_nat n1)) ltac:(lia)) as HP1.
  assert (0 <= shr_m mrs1 <= m) as Hq0.
  { rewrite Hm1. split; [apply Z.div_pos; lia |].
    apply Z.div_le_upper_bound; [lia |]. nia. }
  assert (Z.log2 q1 <= Z.log2 m + 1) as Hlogq1.
  { destruct (Z.eq_dec m 0) as [-> | Hm0].
    - pose proof (Z.log2_le_mono q1 1 ltac:(lia)) as Hl.
      change (Z.log2 1) with 0 in Hl. change (Z.log2 0) with 0. lia.
    - apply Z.le_trans with (Z.log2 (2 * m)); [apply Z.log2_le_mono; lia |].
      rewrite Z.log2_double by lia. lia. }
  pose proof (Zdigits2_le q1 ltac:(lia)) as Hd1.
  set (e1 := e + Z.max n1 0) in *.
  assert (e1 <= 348) as He1.
  { subst e1 n1. pose proof (fexp_ge (Zdigits2 m + e)).
    pose proof (fexp_le (Zdigits2 m + e) 348 ltac:(lia) ltac:(lia)). lia. }
  set (n2 := fexp prec emax (Zdigits2 q1 + e1) - e1).
  assert (e1 + Z.max n2 0 <= 971) as He2.
  { subst n2. pose proof (fexp_le (Zdigits2 q1 + e1) 971 ltac:(lia) ltac:(lia)). lia. }
  assert (shr_m (Nat.iter (Z.to_nat n2) shr_1 (shr_record_of_loc q1 loc_Exact))
          = q1 / 2 ^ Z.of_nat (Z.to_nat n2)) as Hm2.
  { rewrite shr_iter_m; cbn [shr_record_of_loc shr_m]; [reflexivity | lia]. }
  cbv iota beta. rewrite Hm2.
  pose proof (pow2_pos (Z.of_nat (Z.to_nat n2)) ltac:(lia)) as HP2.
  pose proof (Z.div_pos q1 (2 ^ Z.of_nat (Z.to_nat n2)) ltac:(lia) HP2) as Hq2.
  destruct (q1 / 2 ^ Z.of_nat (Z.to_nat n2)) as [| p | p];
    cbn [zero_or_finite]; [reflexivity | | lia].
  destruct (Z.leb_spec (e1 + Z.max n2 0) (emax - prec)) as [_ | Hbad];
    [cbn [zero_or_finite]; split; [reflexivity | lia]
    | unfold emax, prec in Hbad; lia].
Qed.

End RoundAux.

Section IntegerRounding.

Lemma rne_div_mono (n n' d : Z) :
  0 < d -> n <= n' -> rne_div n d <= rne_div n' d.
Proof.
  intros Hd Hn.
  pose proof (Z.div_le_mono n n' d Hd Hn) as Hq.
  destruct (Z.eq_dec (n / d) (n' / d)) as [Heq | Hne].
  - pose proof (Z.div_mod n d ltac:(lia)) as H1.
    pose proof (Z.div_mod n' d ltac:(lia)) as H2.
    unfold rne_div. rewrite <- Heq in *.
    destruct (Z.compare_spec (2 * (n mod d)) d);
      destruct (Z.compare_spec (2 * (n' mod d)) d);
      destruct (Z.even (n / d)); lia.
  - pose proof (rne_div_range n d). pose proof (rne_div_range n' d). lia.
Qed.

Lemma rne_div_scale (m k j : Z) :
  0 <= k -> 0 <= j -> rne_div (m * 2 ^ j) (2 ^ (k + j)) = rne_div m (2 ^ k).
Proof.
  intros Hk Hj.
  pose proof (pow2_pos k Hk) as HPk. pose proof (pow2_pos j Hj) as HPj.
  unfold rne_div. rewrite Z.pow_add_r by assumption.
  rewrite Z.div_mul_cancel_r, Z.mul_mod_distr_r by lia.
  rewrite Z.mul_assoc, <- Zmult_compare_compat_r by lia.
  reflexivity.
Qed.

Lemma rnd_0 : rnd 0 = 0.
Proof. reflexivity. Qed.

Lemma rnd_nonneg (N : Z) : 0 <= N -> 0 <= rnd N.
Proof.
  intros HN. unfold rnd.
  set (k := Z.max 0 (Z.log2 N - 52)).
  pose proof (pow2_pos k ltac:(lia)) as HP.
  pose proof (rne_div_range N (2 ^ k)).
  pose proof (Z.div_pos N (2 ^ k) HN HP).
  apply Z.mul_nonneg_nonneg; lia.
Qed.

Lemma rnd_scale (m j : Z) :
  2 ^ 52 <= m -> 0 <= j -> rnd (m * 2 ^ j) = rnd m * 2 ^ j.
Proof.
  intros Hm Hj.
  destruct (normal_quotient m Hm) as [Hk _].
  assert (0 < m) as Hpos by (pose proof (pow2_pos 52); lia).
  unfold rnd. rewrite log2_mul_pow2 by assumption.
  rewrite !Z.max_r by lia.
  replace (Z.log2 m + j - 52) with (Z.log2 m - 52 + j) by lia.
  rewrite rne_div_scale by lia.
  rewrite Z.pow_add_r by lia. ring.
Qed.

Lemma rnd_mono (N N' : Z) : 0 <= N -> N <= N' -> rnd N <= rnd N'.
Proof.
  intros HN Hle.
  destruct (Z.eq_dec N 0) as [-> | HN0].
  { rewrite rnd_0. apply rnd_nonneg. assumption. }
  pose proof (Z.log2_le_mono N N' Hle) as Hlog.
  unfold rnd.
  set (k := Z.max 0 (Z.log2 N - 52)). set (k' := Z.max 0 (Z.log2 N' - 52)).
  pose proof (pow2_pos k ltac:(lia)) as HP. pose proof (pow2_pos k' ltac:(lia)) as HP'.
  destruct (Z.eq_dec k k') as [Hk | Hk].
  - rewrite <- Hk. apply Z.mul_le_mono_nonneg_r; [lia |].
    apply rne_div_mono; assumption.
  - assert (k + 1 <= k') as Hlt by lia.
    pose proof (log2_spec_pos N ltac:(lia)) as [_ Hup].
    pose proof (log2_spec_pos N' ltac:(lia)) as [Hlow _].
    assert (N < 2 ^ 53 * 2 ^ k) as HNup.
    { rewrite <- Z.pow_add_r by lia.
      eapply Z.lt_le_trans; [exact Hup |]. apply Z.pow_le_mono_r; lia. }
    assert (2 ^ 52 * 2 ^ k' <= N') as HNlow.
    { rewrite <- Z.pow_add_r by lia.
      eapply Z.le_trans; [| exact Hlow]. apply Z.pow_le_mono_r; lia. }
    pose proof (rne_div_range N (2 ^ k)) as Hr.
    pose proof (rne_div_range N' (2 ^ k')) as Hr'.
    assert (N / 2 ^ k < 2 ^ 53) as Hq by (apply Z.div_lt_upper_bound; lia).
    assert (2 ^ 52 <= N' / 2 ^ k') as Hq' by (apply Z.div_le_lower_bound; lia).
    assert (2 ^ 53 * 2 ^ k <= 2 ^ 52 * 2 ^ k') as Hmid.
    { rewrite <- !Z.pow_add_r by lia. apply Z.pow_le_mono_r; lia. }
    apply Z.le_trans with (2 ^ 53 * 2 ^ k); [apply Z.mul_le_mono_nonneg_r; lia |].
    apply Z.le_trans with (2 ^ 52 * 2 ^ k'); [assumption |].
    apply Z.mul_le_mono_nonneg_r; lia.
Qed.

(** Representable values are fixed points of the rounding. *)
Lemma rnd_representable (m j : Z) :
  2 ^ 52 <= m < 2 ^ 53 -> 0 <= j -> rnd (m * 2 ^ j) = m * 2 ^ j.
Proof.
  intros Hm Hj. rewrite rnd_scale by lia. f_equal.
  unfold rnd. rewrite (log2_bounds m 52) by lia.
  replace (Z.max 0 (52 - 52)) with 0 by reflexivity.
  change (2 ^ 0) with 1. rewrite rne_div_1. lia.
Qed.

(** The value of the rounded pair is the rounding of the value. *)
Lemma round_norm_val (m e U : Z) :
  2 ^ 52 <= m -> 0 <= e + U ->
  fst (round_norm m e) * 2 ^ (snd (round_norm m e) + U) = rnd (m * 2 ^ (e + U)).
Proof.
  intros Hm HU.
  destruct (normal_quotient m Hm) as [Hk _].
  rewrite rnd_scale by lia.
  unfold rnd, round_norm. rewrite Z.max_r by lia.
  set (k := Z.log2 m - 52) in *.
  destruct (Z.eqb_spec (rne_div m (2 ^ k)) (2 ^ 53)) as [-> | _]; cbn [fst snd].
  - replace (e + k + 1 + U) with (1 + k + (e + U)) by lia.
    rewrite !Z.pow_add_r by lia. change (2 ^ 53) with (2 ^ 52 * 2 ^ 1). ring.
  - replace (e + k + U) with (k + (e + U)) by lia.
    rewrite Z.pow_add_r by lia. ring.
Qed.

End IntegerRounding.

Section FloatOperations.

Lemma iter_xO (m d : positive) :
  Z.pos (Pos.iter xO m d) = Z.pos m * 2 ^ Z.pos d.
Proof.
  induction d as [| d IH] using Pos.peano_ind.
  - cbn [Pos.iter]. rewrite Pos2Z.inj_xO. change (2 ^ 1) with 2. lia.
  - rewrite Pos.iter_succ, Pos2Z.inj_xO, IH, Pos2Z.inj_succ, Z.pow_succ_r by lia.
    ring.
Qed.

Lemma shl_align_value (mx : positive) (ex ez : Z) :
  ez <= ex -> Z.pos (fst (shl_align mx ex ez)) = Z.pos mx * 2 ^ (ex - ez).
Proof.
  intros Hle. unfold shl_align.
  destruct (ez - ex) as [| d | d] eqn:Hd; cbn [fst]; try lia.
  - replace (ex - ez) with 0 by lia. change (2 ^ 0) with 1. lia.
  - rewrite iter_xO. do 2 f_equal. lia.
Qed.

Lemma log2_ge_52 (m : Z) : 2 ^ 52 <= m -> 52 <= Z.log2 m.
Proof.
  intros Hm. rewrite <- (Z.log2_pow2 52) by lia. apply Z.log2_le_mono. assumption.
Qed.

Lemma log2_lt (m b : Z) : 0 < m -> m < 2 ^ b -> Z.log2 m < b.
Proof. intros Hm Hb. apply Z.log2_lt_pow2; assumption. Qed.

Lemma binary_round_no_shift (s : positive) (e : Z) :
  2 ^ 52 <= Z.pos s ->
  binary_round prec emax false s e
  = binary_round_aux prec emax false (Z.pos s) e loc_Exact.
Proof.
  intros Hs. unfold binary_round, shl_align.
  pose proof (log2_ge_52 _ Hs) as Hlog.
  pose proof (fexp_ge (Z.pos (digits2_pos s) + e)) as [Hf _].
  rewrite Zdigits2_log2 in *.
  destruct (fexp prec emax (Z.log2 (Z.pos s) + 1 + e) - e) eqn:Hd;
    try reflexivity; lia.
Qed.

(** Addition of two positive normal numbers. *)
Lemma add_normal (x y : float) :
  normal x -> normal y ->
  exists m e,
    add x y = S754_finite false m e /\
    2 ^ 52 <= Z.pos m < 2 ^ 53 /\ -200 <= e /\
    forall U, 200 <= U -> Z.pos m * 2 ^ (e + U) = rnd (val U x + val U y).
Proof.
  destruct x as [| | | [] mx ex]; try contradiction.
  destruct y as [| | | [] my ey]; try contradiction.
  cbn [normal]. intros [Hmx Hex] [Hmy Hey].
  unfold add. cbn [SFadd cond_Zopp].
  set (ez := Z.min ex ey).
  rewrite !shl_align_value by lia.
  pose proof (pow2_pos (ex - ez) ltac:(lia)) as HPx.
  pose proof (pow2_pos (ey - ez) ltac:(lia)) as HPy.
  set (S := Z.pos mx * 2 ^ (ex - ez) + Z.pos my * 2 ^ (ey - ez)).
  assert (2 ^ 52 <= S) as HS.
  { subst S. destruct (Z.min_spec ex ey) as [[_ Hz] | [_ Hz]]; fold ez in Hz.
    - replace (ex - ez) with 0 by lia. change (2 ^ 0) with 1. nia.
    - replace (ey - ez) with 0 by lia. change (2 ^ 0) with 1. nia. }
  assert (S < 2 ^ 454) as HSup.
  { assert (2 ^ (ex - ez) <= 2 ^ 400) by (apply Z.pow_le_mono_r; lia).
    assert (2 ^ (ey - ez) <= 2 ^ 400) by (apply Z.pow_le_mono_r; lia).
    change (2 ^ 454) with (2 ^ 53 * 2 ^ 400 + 2 ^ 53 * 2 ^ 400). subst S. nia. }
  assert (0 < S) as HSpos by (pose proof (pow2_pos 52); lia).
  pose proof (log2_ge_52 S HS) as Hlog1.
  pose proof (log2_lt S 454 HSpos HSup) as Hlog2.
  destruct S as [| s | s] eqn:HeqS; try lia.
  cbn [binary_normalize]. rewrite binary_round_no_shift by assumption.
  rewrite binary_round_aux_exact by lia.
  pose proof (round_norm_mantissa (Z.pos s) ez HS) as Hrm.
  exists (Z.to_pos (fst (round_norm (Z.pos s) ez))), (snd (round_norm (Z.pos s) ez)).
  rewrite Z2Pos.id by (pose proof (pow2_pos 52); lia).
  split; [reflexivity |]. split; [assumption |]. split.
  - unfold round_norm.
    destruct (_ =? _); cbn [snd]; lia.
  - intros U HU. rewrite round_norm_val by lia.
    f_equal. cbn [val]. rewrite <- HeqS. subst S.
    rewrite Z.mul_add_distr_r, <- !Z.mul_assoc, <- !Z.pow_add_r by lia.
    do 2 f_equal; f_equal; lia.
Qed.

(** Multiplication of two positive normal numbers. *)
Lemma mul_normal (x y : float) :
  normal x -> normal y ->
  exists m e,
    mul x y = S754_finite false m e /\
    2 ^ 52 <= Z.pos m < 2 ^ 53 /\ -400 <= e /\
    forall U1 U2, 200 <= U1 -> 200 <= U2 ->
      Z.pos m * 2 ^ (e + (U1 + U2)) = rnd (val U1 x * val U2 y).
Proof.
  destruct x as [| | | [] mx ex]; try contradiction.
  destruct y as [| | | [] my ey]; try contradiction.
  cbn [normal]. intros [Hmx Hex] [Hmy Hey].
  unfold mul. cbn [SFmul xorb]. rewrite Pos2Z.inj_mul.
  set (P := Z.pos mx * Z.pos my).
  assert (2 ^ 52 <= P) as HP by (subst P; nia).
  assert (P < 2 ^ 106) as HPup
    by (change (2 ^ 106) with (2 ^ 53 * 2 ^ 53); subst P; nia).
  assert (0 < P) as HPpos by (pose proof (pow2_pos 52); lia).
  pose proof (log2_ge_52 P HP) as Hlog1.
  pose proof (log2_lt P 106 HPpos HPup) as Hlog2.
  rewrite binary_round_aux_exact by lia.
  pose proof (round_norm_mantissa P (ex + ey) HP) as Hrm.
  exists (Z.to_pos (fst (round_norm P (ex + ey)))), (snd (round_norm P (ex + ey))).
  rewrite Z2Pos.id by (pose proof (pow2_pos 52); lia).
  split; [reflexivity |]. split; [assumption |]. split.
  - unfold round_norm.
    destruct (_ =? _); cbn [snd]; lia.
  - intros U1 U2 HU1 HU2. rewrite round_norm_val by lia.
    f_equal. cbn [val]. subst P.
    replace (ex + ey + (U1 + U2)) with ((ex + U1) + (ey + U2)) by lia.
    rewrite Z.pow_add_r by lia. ring.
Qed.

Lemma shiftl_val (m e U : Z) :
  0 <= U -> 0 <= e + U -> Z.shiftl m e = m * 2 ^ (e + U) / 2 ^ U.
Proof.
  intros HU HeU. pose proof (pow2_pos U HU) as HP.
  destruct (Z.le_gt_cases 0 e) as [He | He].
  - rewrite Z.shiftl_mul_pow2, Z.pow_add_r, Z.mul_assoc, Z.div_mul by lia.
    reflexivity.
  - rewrite Z.shiftl_div_pow2 by lia.
    pose proof (pow2_pos (e + U) HeU). pose proof (pow2_pos (- e) ltac:(lia)).
    assert (2 ^ U = 2 ^ (- e) * 2 ^ (e + U)) as ->
      by (rewrite <- Z.pow_add_r by lia; f_equal; lia).
    rewrite Z.div_mul_cancel_r by lia. reflexivity.
Qed.

Lemma val_nonneg (U : Z) (x : float) : 0 <= val U x.
Proof.
  destruct x as [| | | [] m e]; cbn [val]; lia.
Qed.

Lemma normal_1000 : normal (of_Z 1000).
Proof. vm_compute. repeat split; discriminate. Qed.

Lemma ms_val_mono (v v' : Z) : 0 <= v -> v <= v' -> ms_val v <= ms_val v'.
Proof.
  intros Hv Hle. unfold ms_val.
  pose proof (val_nonneg 200 (of_Z 1000)) as Hc.
  apply Z.div_le_mono; [apply pow2_pos; lia |].
  apply rnd_mono; nia.
Qed.

Lemma ms_val_nonneg (v : Z) : 0 <= v -> 0 <= ms_val v.
Proof.
  intros Hv. unfold ms_val.
  pose proof (val_nonneg 200 (of_Z 1000)) as Hc.
  apply Z.div_pos; [| apply pow2_pos; lia].
  apply rnd_nonneg. nia.
Qed.

(** [int(x * 1000)] succeeds on the range of the cursor. *)
Lemma int_mul_1000 (x : float) :
  in_range x ->
  int_of_float (mul x (of_Z 1000)) = Ok (ms_val (val 200 x)).
Proof.
  intros [-> | [Hn _]].
  - vm_compute. reflexivity.
  - destruct (mul_normal x (of_Z 1000) Hn normal_1000)
      as (m & e & Heq & Hm & He & Hval).
    rewrite Heq. cbn [int_of_float cond_Zopp]. f_equal.
    rewrite (shiftl_val _ e 400) by lia.
    unfold ms_val. rewrite <- (Hval 200 200) by lia. reflexivity.
Qed.

Lemma normal_val (x : float) :
  normal x ->
  exists m e, x = S754_finite false m e /\ 2 ^ 52 <= Z.pos m < 2 ^ 53 /\
              -200 <= e <= 200 /\ val 200 x = Z.pos m * 2 ^ (e + 200).
Proof.
  destruct x as [| | | [] m e]; try contradiction.
  intros [Hm He]. exists m, e. repeat split; lia.
Qed.

Lemma exponent_of_value (m e a : Z) :
  2 ^ 52 <= m -> 0 <= e + 200 -> 0 <= a ->
  m * 2 ^ (e + 200) <= 2 ^ a -> e + 252 <= a.
Proof.
  intros Hm He Ha Hv.
  pose proof (pow2_pos (e + 200) He) as HP.
  apply (Z.pow_le_mono_r_iff 2); [lia | lia |].
  replace (e + 252) with (52 + (e + 200)) by lia.
  rewrite Z.pow_add_r by lia. nia.
Qed.

Lemma rnd_top : rnd (2 ^ 254 + 2 ^ 201) = 2 ^ 254.
Proof. vm_compute. reflexivity. Qed.

(** Adding a small addend keeps the cursor in range and does not
    decrease it. *)
Lemma add_in_range (x c : float) :
  in_range x -> small_addend c ->
  in_range (add x c) /\ val 200 x <= val 200 (add x c).
Proof.
  intros [-> | [Hx Hxv]] [-> | [Hc Hcv]].
  - split; [left; reflexivity | cbn; lia].
  - destruct (normal_val c Hc) as (m & e & -> & _).
    unfold add. cbn [SFadd].
    split; [right; split; [assumption | lia] | apply val_nonneg].
  - destruct (normal_val x Hx) as (m & e & -> & _).
    unfold add. cbn [SFadd].
    split; [right; split; assumption | lia].
  - destruct (add_normal x c Hx Hc) as (m & e & Heq & Hm & He & Hval).
    specialize (Hval 200 ltac:(lia)).
    pose proof (val_nonneg 200 x) as Hx0. pose proof (val_nonneg 200 c) as Hc0.
    assert (Z.pos m * 2 ^ (e + 200) <= 2 ^ 254) as Hup.
    { rewrite Hval, <- rnd_top. apply rnd_mono; lia. }
    pose proof (exponent_of_value (Z.pos m) e 254 ltac:(lia) ltac:(lia) ltac:(lia) Hup).
    rewrite Heq. cbn [val]. split.
    + right. cbn [normal val]. split; [split |]; lia.
    + rewrite Hval.
      destruct (normal_val x Hx) as (mx & ex & _ & Hmx & Hex & Hvx).
      rewrite Hvx at 1. rewrite <- (rnd_representable (Z.pos mx) (ex + 200)) by lia.
      apply rnd_mono; lia.
Qed.

(** The correctly rounded quotient of a moderate integer by 1000. *)
Lemma div_1000_finite (s : bool) (k : positive) :
  Z.pos k < 2 ^ 66 ->
  zero_or_finite s (SFdiv prec emax (S754_finite s k 0) (S754_finite false 1000 0)).
Proof.
  intros Hk. cbn [SFdiv]. unfold SFdiv_core_binary.
  set (e' := Z.min (fexp prec emax (Zdigits2 (Z.pos k) + 0 - (Zdigits2 1000 + 0))) (0 - 0)).
  set (m' := match 0 - 0 - e' with
             | 0 => Z.pos k
             | Z.pos _ => Z.shiftl (Z.pos k) (0 - 0 - e')
             | Z.neg _ => 0
             end).
  assert (-62 <= e' <= 0) as He'.
  { subst e'. pose proof (fexp_ge (Zdigits2 (Z.pos k) + 0 - (Zdigits2 1000 + 0))) as [Hf _].
    change (Zdigits2 1000) with 10 in *.
    rewrite Zdigits2_pos_log2 in * by lia.
    pose proof (Z.log2_nonneg (Z.pos k)). lia. }
  assert (0 <= m' < 2 ^ 128) as Hm'.
  { assert (m' = Z.pos k * 2 ^ (- e')) as ->.
    { subst m'. destruct (0 - 0 - e') as [| p | p] eqn:Hs; try lia.
      - replace (- e') with 0 by lia. change (2 ^ 0) with 1. lia.
      - rewrite Z.shiftl_mul_pow2 by lia. do 2 f_equal. lia. }
    assert (0 < 2 ^ (- e') <= 2 ^ 62) as HP
      by (split; [apply pow2_pos; lia | apply Z.pow_le_mono_r; lia]).
    change (2 ^ 128) with (2 ^ 66 * 2 ^ 62). nia. }
  pose proof (Z.div_pos m' 1000 ltac:(lia) ltac:(lia)) as Hq0.
  assert (m' / 1000 <= m') as Hqle by (apply Z.div_le_upper_bound; lia).
  unfold Z.div in Hq0, Hqle.
  destruct (Z.div_eucl m' 1000) as [q r].
  replace (xorb s false) with s by (destruct s; reflexivity).
  apply binary_round_aux_finite; [assumption | | lia].
  destruct (Z.eq_dec q 0) as [-> | Hq]; [cbn; lia |].
  pose proof (log2_lt q 128 ltac:(lia) ltac:(lia)). lia.
Qed.

(** [round(x, 3)] succeeds on the range of the cursor. *)
Lemma round3_ok (x : float) : in_range x -> exists r, round3 x = Ok r.
Proof.
  intros [-> | [Hx Hxv]]; [eexists; reflexivity |].
  destruct (normal_val x Hx) as (m & e & -> & Hm & He & Hv).
  rewrite Hv in Hxv.
  pose proof (exponent_of_value (Z.pos m) e 254 ltac:(lia) ltac:(lia) ltac:(lia) Hxv) as He2.
  cbn [round3].
  set (k := match e with
            | Z.neg p => rne_div (Z.pos m * 1000) (2 ^ Z.pos p)
            | _ => Z.pos m * 2 ^ e * 1000
            end).
  assert (k < 2 ^ 66) as Hk.
  { subst k. destruct e as [| p | p].
    - change (2 ^ 0) with 1. lia.
    - assert (2 ^ Z.pos p <= 2 ^ 2) by (apply Z.pow_le_mono_r; lia). nia.
    - pose proof (rne_div_range (Z.pos m * 1000) (2 ^ Z.pos p)) as Hr.
      pose proof (pow2_pos (Z.pos p) ltac:(lia)) as HP.
      assert (Z.pos m * 1000 / 2 ^ Z.pos p <= Z.pos m * 1000)
        by (apply Z.div_le_upper_bound; nia).
      lia. }
  destruct k as [| k' | k']; try (eexists; reflexivity).
  pose proof (div_1000_finite false k' Hk) as Hfin.
  destruct (SFdiv prec emax (S754_finite false k' 0) (S754_finite false 1000 0));
    cbn [zero_or_finite] in Hfin; try contradiction; eexists; reflexivity.
Qed.

End FloatOperations.

Section TempoRange.

Lemma is_normal_spec (x : float) : is_normal x = true -> normal x.
Proof.
  destruct x as [| | | [] m e]; cbn [is_normal normal]; try discriminate.
  intros H. repeat (apply andb_prop in H; destruct H as [H ?]). lia.
Qed.

Lemma is_small_addend_spec (c : float) :
  is_small_addend c = true -> small_addend c.
Proof.
  unfold is_small_addend, small_addend.
  destruct c as [[] | | | s m e]; intros H;
    try (left; reflexivity); try discriminate.
  apply andb_prop in H. destruct H as [H1 H2].
  right. split; [apply is_normal_spec; assumption | lia].
Qed.

Lemma all_tempos_check :
  forallb tempo_check (map (fun n => 60 + Z.of_nat n) (seq 0 121)) = true.
Proof. vm_compute. reflexivity. Qed.

Lemma tempo_check_ok (T : Z) : 60 <= T <= 180 -> tempo_check T = true.
Proof.
  intros HT.
  pose proof all_tempos_check as H. rewrite forallb_forall in H.
  apply H. apply in_map_iff. exists (Z.to_nat (T - 60)). split; [lia |].
  apply in_seq. lia.
Qed.

Lemma effective_tempo_range (tempo_ : option Z) :
  60 <= effective_tempo tempo_ <= 180.
Proof. unfold effective_tempo. lia. Qed.

(** The beat length is defined for every request, and passes the check. *)
Lemma beat_sec_of_ok (tempo_ : option Z) :
  exists b, beat_sec_of tempo_ = Ok b /\ beat_check b = true.
Proof.
  pose proof (tempo_check_ok _ (effective_tempo_range tempo_)) as H.
  unfold tempo_check in H. change (beat_sec_of tempo_) with (beat_at (effective_tempo tempo_)).
  destruct (beat_at (effective_tempo tempo_)) as [b | e]; [| discriminate].
  exists b. split; [reflexivity | assumption].
Qed.

End TempoRange.

Section Loop.

Variable b : float.
Hypothesis Hb : beat_check b = true.

Lemma line_length_small : small_addend (mul (of_Z dur_beats) b).
Proof.
  unfold beat_check in Hb.
  apply andb_prop in Hb. destruct Hb as [H _].
  apply andb_prop in H. destruct H as [H _].
  apply is_small_addend_spec. assumption.
Qed.

Lemma step_offset_small (s : Z) :
  In s (range 4) -> small_addend (mul (mul (of_Z s) step) b).
Proof.
  intros Hs. unfold beat_check in Hb.
  apply andb_prop in Hb. destruct Hb as [H _].
  apply andb_prop in H. destruct H as [_ H].
  rewrite forallb_forall in H. apply is_small_addend_spec, H. assumption.
Qed.

Lemma duration_ok : exists r, round3 (mul (mul step b) (literal 9 10)) = Ok r.
Proof.
  unfold beat_check in Hb.
  apply andb_prop in Hb. destruct Hb as [_ H].
  destruct (round3 (mul (mul step b) (literal 9 10))) as [r | e];
    [exists r; reflexivity | discriminate].
Qed.

Lemma advance_in_range (x : float) :
  in_range x -> in_range (advance b x) /\ val 200 x <= val 200 (advance b x).
Proof. intros Hx. apply add_in_range; [assumption | apply line_length_small]. Qed.

Lemma cursor_in_range (i : nat) : in_range (cursor b i).
Proof.
  induction i as [| i IH].
  - left. reflexivity.
  - apply (advance_in_range _ IH).
Qed.

Lemma cursor_mono (i j : nat) :
  (i <= j)%nat -> val 200 (cursor b i) <= val 200 (cursor b j).
Proof.
  induction 1 as [| j _ IH]; [lia |].
  pose proof (advance_in_range _ (cursor_in_range j)) as [_ H].
  change (cursor b (S j)) with (advance b (cursor b j)). lia.
Qed.

Lemma ms_of_val (x : float) : in_range x -> ms_of x = ms_val (val 200 x).
Proof. intros Hx. unfold ms_of. rewrite int_mul_1000 by assumption. reflexivity. Qed.

Lemma ms_of_ok (x : float) :
  in_range x -> int_of_float (mul x (of_Z 1000)) = Ok (ms_of x).
Proof.
  intros Hx. rewrite ms_of_val by assumption. apply int_mul_1000. assumption.
Qed.

Lemma float_of_step (s : Z) : In s (range 4) -> float_of_int s = Ok (of_Z s).
Proof.
  intros Hs. cbn in Hs.
  destruct Hs as [<- | [<- | [<- | [<- | []]]]]; reflexivity.
Qed.

Lemma note_time_ok (t_ : float) (s : Z) :
  in_range t_ -> In s (range 4) ->
  exists r, round3 (add t_ (mul (mul (of_Z s) step) b)) = Ok r.
Proof.
  intros Ht Hs. apply round3_ok.
  apply add_in_range; [assumption | apply step_offset_small; assumption].
Qed.

Lemma note_body_ok (t_ : float) (i : Z) (notes : list Note) (s : Z) :
  in_range t_ -> In s (range 4) ->
  note_body b t_ i notes s = Ok (notes ++ [note_of b t_ i s]).
Proof.
  intros Ht Hs. unfold note_body, note_of.
  rewrite (float_of_step s Hs). cbn [bind].
  destruct (note_time_ok t_ s Ht Hs) as [r ->].
  destruct duration_ok as [r' ->].
  reflexivity.
Qed.

Lemma notes_loop_ok (t_ : float) (i : Z) (ss : list Z) (notes : list Note) :
  in_range t_ -> incl ss (range 4) ->
  for_each (note_body b t_ i) ss notes = Ok (notes ++ map (note_of b t_ i) ss).
Proof.
  intros Ht. revert notes. induction ss as [| s ss IH]; intros notes Hss.
  - cbn. rewrite app_nil_r. reflexivity.
  - cbn [for_each map].
    rewrite note_body_ok by (try assumption; apply Hss; left; reflexivity).
    cbn [bind]. rewrite IH by (intros x Hx; apply Hss; right; assumption).
    rewrite <- app_assoc. reflexivity.
Qed.

Lemma steps_value :
  (fdur <- float_of_int dur_beats ;; q <- truediv fdur step ;; int_of_float q)
  = Ok 4.
Proof. vm_compute. reflexivity. Qed.

Lemma line_body_ok (st : loop_state) (i : Z) (line : str) :
  in_range (t st) ->
  line_body b st (i, line)
  = Ok {| t := advance b (t st);
          timestamps_acc :=
            timestamps_acc st ++
              [{| lineText := line;
                  start_ms := ms_of (t st);
                  end_ms := ms_of (advance b (t st)) |}];
          notes_acc := notes_acc st ++ map (note_of b (t st) i) (range 4) |}.
Proof.
  intros Ht. unfold line_body.
  change (float_of_int 1000) with (Ok (of_Z 1000)).
  change (float_of_int dur_beats) with (Ok (of_Z dur_beats)).
  cbn [bind].
  rewrite (ms_of_ok _ Ht). cbn [bind].
  fold (advance b (t st)).
  rewrite (ms_of_ok _ (proj1 (advance_in_range _ Ht))). cbn [bind].
  replace (truediv (of_Z dur_beats) step)
    with (Ok (S754_finite false 4503599627370496 (-50))) by (vm_compute; reflexivity).
  cbn [bind int_of_float cond_Zopp].
  change (Z.shiftl 4503599627370496 (-50)) with 4.
  rewrite notes_loop_ok by (try assumption; apply incl_refl).
  reflexivity.
Qed.

Lemma lines_loop_ok (lines : list str) (i : nat) (st : loop_state) :
  t st = cursor b i ->
  for_each (line_body b) (enumerate_from (Z.of_nat i) lines) st
  = Ok {| t := cursor b (i + List.length lines);
          timestamps_acc := timestamps_acc st ++ timestamps_from b i lines;
          notes_acc := notes_acc st ++ notes_from b i lines |}.
Proof.
  revert i st. induction lines as [| line lines IH]; intros i st Ht.
  - cbn. rewrite Nat.add_0_r, !app_nil_r, <- Ht. destruct st; reflexivity.
  - cbn [enumerate_from for_each].
    rewrite line_body_ok by (rewrite Ht; apply cursor_in_range).
    cbn [bind].
    replace (Z.of_nat i + 1) with (Z.of_nat (S i)) by lia.
    rewrite (IH (S i)) by (cbn [t]; rewrite Ht; reflexivity).
    cbn [t timestamps_acc notes_acc timestamps_from notes_from List.length].
    rewrite Ht, <- !app_assoc, Nat.add_succ_r. reflexivity.
Qed.

End Loop.

(** The response, in closed form. *)
Lemma generate_melody_preview_ok (MOCK_MODE : bool) (req : MelodyPreviewRequest) :
  exists b,
    beat_sec_of (tempo req) = Ok b /\ beat_check b = true /\
    generate_melody_preview MOCK_MODE req
    = Ok {| midiJson :=
              {| mj_notes := notes_from b 0 (lines_or_fallback (lyrics req));
                 mj_tempo := tempo req;
                 mj_key := key req;
                 mj_style := style req |};
            guideAudioUrl :=
              if MOCK_MODE then Some guide_audio_placeholder else None;
            timestamps := timestamps_from b 0 (lines_or_fallback (lyrics req)) |}.
Proof.
  destruct (beat_sec_of_ok (tempo req)) as (b & Hbeat & Hb).
  exists b. split; [assumption |]. split; [assumption |].
  unfold generate_melody_preview. rewrite Hbeat. cbn [bind].
  unfold enumerate. change 0 with (Z.of_nat 0).
  rewrite (lines_loop_ok b Hb) by reflexivity.
  reflexivity.
Qed.

(** * The shape of the output *)

Section Output.

Variable b : float.

Lemma timestamps_from_length (i : nat) (lines : list str) :
  List.length (timestamps_from b i lines) = List.length lines.
Proof.
  revert i. induction lines as [| l lines IH]; intros i; cbn; [| rewrite IH]; reflexivity.
Qed.

Lemma notes_from_length (i : nat) (lines : list str) :
  List.length (notes_from b i lines) = (4 * List.length lines)%nat.
Proof.
  revert i. induction lines as [| l lines IH]; intros i; [reflexivity |].
  cbn [notes_from]. rewrite length_app, length_map, IH.
  change (List.length (range 4)) with 4%nat. cbn [List.length]. lia.
Qed.

Lemma timestamps_from_text (i : nat) (lines : list str) :
  map lineText (timestamps_from b i lines) = lines.
Proof.
  revert i. induction lines as [| l lines IH]; intros i; cbn; [| rewrite IH]; reflexivity.
Qed.

Lemma timestamps_from_contiguous (lines : list str) (i k : nat) (x y : TimestampItem) :
  nth_error (timestamps_from b i lines) k = Some x ->
  nth_error (timestamps_from b i lines) (S k) = Some y ->
  end_ms x = start_ms y.
Proof.
  revert i k. induction lines as [| l lines IH]; intros i k Hx Hy.
  - destruct k; discriminate.
  - destruct k as [| k].
    + cbn in Hx. injection Hx as <-.
      destruct lines as [| l' lines]; [discriminate |].
      cbn in Hy. injection Hy as <-. reflexivity.
    + apply (IH (S i) k); assumption.
Qed.

Lemma nth_error_range4 (s : nat) :
  (s < 4)%nat -> nth_error (range 4) s = Some (Z.of_nat s).
Proof.
  intros Hs. do 4 (destruct s as [| s]; [reflexivity |]). lia.
Qed.

Lemma notes_from_nth (lines : list str) (i k s : nat) :
  (k < List.length lines)%nat -> (s < 4)%nat ->
  nth_error (notes_from b i lines) (4 * k + s)
  = Some (note_of b (cursor b (i + k)) (Z.of_nat (i + k)) (Z.of_nat s)).
Proof.
  revert i k. induction lines as [| l lines IH]; intros i k Hk Hs.
  - cbn in Hk. lia.
  - cbn [notes_from]. destruct k as [| k].
    + replace (4 * 0 + s)%nat with s by lia.
      rewrite nth_error_app1
        by (rewrite length_map; change (List.length (range 4)) with 4%nat; lia).
      rewrite Nat.add_0_r.
      rewrite nth_error_map, nth_error_range4 by assumption. reflexivity.
    + rewrite nth_error_app2
        by (rewrite length_map; change (List.length (range 4)) with 4%nat; lia).
      rewrite length_map. change (List.length (range 4)) with 4%nat.
      replace (4 * S k + s - 4)%nat with (4 * k + s)%nat by lia.
      rewrite IH by (cbn in Hk; lia).
      replace (S i + k)%nat with (i + S k)%nat by lia. reflexivity.
Qed.

Lemma notes_from_midi (i : nat) (lines : list str) :
  Forall (fun n => 60 <= midi n <= 70) (notes_from b i lines).
Proof.
  revert i. induction lines as [| l lines IH]; intros i; [constructor |].
  cbn [notes_from]. apply Forall_app. split; [| apply IH].
  apply Forall_map, Forall_forall. intros s Hs.
  cbn [note_of midi]. unfold midi_base.
  pose proof (Z.mod_pos_bound (Z.of_nat i) 5 ltac:(lia)).
  pose proof (Z.mod_pos_bound s 3 ltac:(lia)). lia.
Qed.

Hypothesis Hb : beat_check b = true.

Lemma ms_cursor_mono (i j : nat) :
  (i <= j)%nat -> ms_of (cursor b i) <= ms_of (cursor b j).
Proof.
  intros Hij. rewrite !ms_of_val by (apply cursor_in_range; assumption).
  apply ms_val_mono; [apply val_nonneg | apply cursor_mono; assumption].
Qed.

Lemma ms_cursor_nonneg (i : nat) : 0 <= ms_of (cursor b i).
Proof.
  rewrite ms_of_val by (apply cursor_in_range; assumption).
  apply ms_val_nonneg, val_nonneg.
Qed.

Lemma ms_values_lower (lines : list str) (i j : nat) :
  (i <= j)%nat ->
  Forall (fun v => ms_of (cursor b i) <= v) (ms_values (timestamps_from b j lines)).
Proof.
  revert j. induction lines as [| l lines IH]; intros j Hij; [constructor |].
  cbn [timestamps_from ms_values flat_map app start_ms end_ms].
  constructor; [apply ms_cursor_mono; lia |].
  constructor; [apply ms_cursor_mono; lia |].
  apply IH. lia.
Qed.

Lemma ms_values_sorted (lines : list str) (i : nat) :
  StronglySorted Z.le (ms_values (timestamps_from b i lines)).
Proof.
  revert i. induction lines as [| l lines IH]; intros i; [constructor |].
  cbn [timestamps_from ms_values flat_map app start_ms end_ms].
  constructor; [constructor |].
  - apply IH.
  - apply ms_values_lower. lia.
  - constructor; [apply ms_cursor_mono; lia | apply ms_values_lower; lia].
Qed.

Lemma ms_values_nonneg (lines : list str) (i : nat) :
  Forall (fun v => 0 <= v) (ms_values (timestamps_from b i lines)).
Proof.
  eapply Forall_impl; [| apply (ms_values_lower lines 0 i); lia].
  cbn beta. intros v Hv. pose proof (ms_cursor_nonneg 0). lia.
Qed.

Lemma note_of_time (i s : nat) :
  (s < 4)%nat ->
  round3 (add (cursor b i) (mul (mul (of_Z (Z.of_nat s)) step) b))
  = Ok (time (note_of b (cursor b i) (Z.of_nat i) (Z.of_nat s))).
Proof.
  intros Hs.
  assert (In (Z.of_nat s) (range 4)) as Hin
    by (eapply nth_error_In, nth_error_range4; assumption).
  destruct (note_time_ok b Hb (cursor b i) (Z.of_nat s)
              (cursor_in_range b Hb i) Hin) as [r Hr].
  cbn [note_of time]. rewrite Hr. reflexivity.
Qed.

Lemma note_of_duration (t_ : float) (i s : Z) :
  round3 (mul (mul step b) (literal 9 10)) = Ok (duration (note_of b t_ i s)).
Proof.
  destruct (duration_ok b Hb) as [r Hr].
  cbn [note_of duration]. rewrite Hr. reflexivity.
Qed.

End Output.

(** * String lemmas *)

Section Strings.

Lemma lstrip_all_space (l : str) : forallb isspace l = true -> lstrip l = [].
Proof.
  induction l as [| c l IH]; [reflexivity |].
  cbn [forallb lstrip]. intros H. apply andb_prop in H. destruct H as [Hc Hl].
  rewrite Hc. apply IH. assumption.
Qed.

Lemma strip_all_space (l : str) : forallb isspace l = true -> strip l = [].
Proof.
  intros H. unfold strip. rewrite lstrip_all_space by assumption. reflexivity.
Qed.

Lemma lstrip_idempotent (l : str) : lstrip (lstrip l) = lstrip l.
Proof.
  induction l as [| c l IH]; [reflexivity |].
  cbn [lstrip]. destruct (isspace c) eqn:Hc; [assumption |].
  cbn [lstrip]. rewrite Hc. reflexivity.
Qed.

Lemma lstrip_keeps_last (l : str) (c : N) :
  isspace c = false -> exists x, lstrip (l ++ [c]) = x ++ [c].
Proof.
  intros Hc. induction l as [| d l IH].
  - exists []. cbn. rewrite Hc. reflexivity.
  - cbn [app lstrip]. destruct (isspace d); [assumption |].
    exists (d :: l). reflexivity.
Qed.

Lemma lstrip_head (l : str) (c : N) (a : str) :
  lstrip l = c :: a -> isspace c = false.
Proof.
  induction l as [| d l IH]; [discriminate |].
  cbn [lstrip]. destruct (isspace d) eqn:Hd; [assumption |].
  intros H. injection H as <- _. assumption.
Qed.

(** A stripped string has no blank at its head. *)
Lemma lstrip_strip (l : str) : lstrip (strip l) = strip l.
Proof.
  unfold strip, rstrip.
  destruct (lstrip l) as [| c a] eqn:Ha; [reflexivity |].
  pose proof (lstrip_head l c a Ha) as Hc.
  cbn [rev]. destruct (lstrip_keeps_last (rev a) c Hc) as [x ->].
  rewrite rev_app_distr. cbn [rev app lstrip]. rewrite Hc. reflexivity.
Qed.

(** Stripping twice is stripping once. *)
Lemma strip_idempotent (l : str) : strip (strip l) = strip l.
Proof.
  unfold strip at 1. rewrite lstrip_strip.
  unfold strip, rstrip. rewrite rev_involutive, lstrip_idempotent. reflexivity.
Qed.

(** The lines kept are not empty and carry no blank at either end. *)
Lemma lyric_lines_trimmed (s : str) :
  Forall (fun l => truthy l = true /\ strip l = l) (lyric_lines s).
Proof.
  unfold lyric_lines. apply Forall_map, Forall_forall.
  intros l Hl. apply filter_In in Hl. destruct Hl as [_ Hl].
  split; [assumption | apply strip_idempotent].
Qed.

Lemma fallback_lines_trimmed :
  Forall (fun l => truthy l = true /\ strip l = l) fallback_lines.
Proof. repeat constructor. Qed.

Lemma lines_or_fallback_trimmed (s : str) :
  Forall (fun l => truthy l = true /\ strip l = l) (lines_or_fallback s).
Proof.
  unfold lines_or_fallback. pose proof (lyric_lines_trimmed s) as H.
  destruct (lyric_lines s); [apply fallback_lines_trimmed | assumption].
Qed.

Lemma lines_or_fallback_nonempty (s : str) : lines_or_fallback s <> [].
Proof.
  unfold lines_or_fallback. destruct (lyric_lines s); discriminate.
Qed.

Lemma forallb_rev {A : Type} (P : A -> bool) (l : list A) :
  forallb P l = true -> forallb P (rev l) = true.
Proof.
  rewrite !forallb_forall. intros H x Hx. apply H, in_rev. assumption.
Qed.

(** Every line of [splitlines] is made of characters of the string. *)
Lemma splitlines_from_forall (P : N -> bool) (n : nat) :
  forall (s cur : str),
    (List.length s <= n)%nat ->
    forallb P cur = true -> forallb P s = true ->
    Forall (fun l => forallb P l = true) (splitlines_from cur s).
Proof.
  induction n as [| n IH]; intros s cur Hn Hcur Hs.
  - destruct s; [| cbn in Hn; lia].
    cbn. destruct cur; constructor; [| constructor].
    apply (forallb_rev P (n :: cur)). assumption.
  - destruct s as [| c rest].
    + cbn. destruct cur as [| d cur]; constructor; [| constructor].
      apply (forallb_rev P (d :: cur)). assumption.
    + cbn [forallb] in Hs. apply andb_prop in Hs. destruct Hs as [Hc Hrest].
      cbn [List.length] in Hn. cbn [splitlines_from].
      destruct (is_linebreak c).
      * constructor; [apply forallb_rev; assumption |].
        destruct rest as [| c' rest'].
        -- constructor.
        -- cbn [forallb] in Hrest. apply andb_prop in Hrest.
           destruct Hrest as [Hc' Hrest']. cbn [List.length] in Hn.
           destruct ((c =? 13)%N && (c' =? 10)%N).
           ++ apply IH; [lia | reflexivity | assumption].
           ++ apply IH; [cbn [List.length]; lia | reflexivity |].
              cbn [forallb]. rewrite Hc', Hrest'. reflexivity.
      * apply IH; [lia | | assumption].
        cbn [forallb]. rewrite Hc, Hcur. reflexivity.
Qed.

(** Lyrics made of whitespace only have no lyric line. *)
Lemma whitespace_only_no_lines (s : str) :
  forallb isspace s = true -> lyric_lines s = [].
Proof.
  intros Hs. unfold lyric_lines.
  assert (forallb isspace (str_or s []) = true) as Hs'
    by (unfold str_or; destruct (truthy s); [assumption | reflexivity]).
  pose proof (splitlines_from_forall isspace (List.length (str_or s []))
                (str_or s []) [] (Nat.le_refl _) eq_refl Hs') as H.
  fold (splitlines (str_or s [])) in H.
  induction H as [| l ls Hl _ IH]; [reflexivity |].
  cbn [filter]. rewrite (strip_all_space l Hl). cbn [truthy]. assumption.
Qed.

End Strings.

(** * The claims *)

(** C1: for every input the handler returns, and the returned timestamps
    are contiguous and non-overlapping: for every adjacent pair of entries,
    [end_ms] of the first equals [start_ms] of the second; all [start_ms]
    and [end_ms] values are non-negative integers, non-decreasing across
    the list. *)
Theorem C1_timestamps_contiguous (MOCK_MODE : bool) (req : MelodyPreviewRequest) :
  exists res,
    generate_melody_preview MOCK_MODE req = Ok res /\
    (forall i x y,
        nth_error (timestamps res) i = Some x ->
        nth_error (timestamps res) (S i) = Some y ->
        end_ms x = start_ms y) /\
    Forall (fun v => 0 <= v) (ms_values (timestamps res)) /\
    StronglySorted Z.le (ms_values (timestamps res)).
Proof.
  destruct (generate_melody_preview_ok MOCK_MODE req) as (b & _ & Hb & Hres).
  eexists. split; [exact Hres |]. cbn [timestamps]. repeat split.
  - intros i x y. apply timestamps_from_contiguous.
  - apply ms_values_nonneg. assumption.
  - apply ms_values_sorted. assumption.
Qed.

(** C2: for every input, with [b] the beat length of the request and
    [lines] the lines the loop walks (the lyric lines, or the fallback), the
    note emitted for every line index [i] below the number of lines and
    every step index [s] in [0, 4) is entry [4 * i + s] of the notes; it has
    [midi = 60 + (i % 5) * 2 + (s % 3)],
    [time = round(t_i + s * 0.5 * b, 3)] where [t_i] is the running cursor
    at the start of line [i], and [duration = round(0.5 * b * 0.9, 3)]. *)
Theorem C2_note_formula (MOCK_MODE : bool) (req : MelodyPreviewRequest) :
  exists res b,
    generate_melody_preview MOCK_MODE req = Ok res /\
    beat_sec_of (tempo req) = Ok b /\
    forall i s : nat,
      (i < List.length (lines_or_fallback (lyrics req)))%nat -> (s < 4)%nat ->
      exists n,
        nth_error (mj_notes (midiJson res)) (4 * i + s) = Some n /\
        midi n = 60 + (Z.of_nat i mod 5) * 2 + (Z.of_nat s mod 3) /\
        round3 (add (cursor b i) (mul (mul (of_Z (Z.of_nat s)) (literal 5 10)) b))
        = Ok (time n) /\
        round3 (mul (mul (literal 5 10) b) (literal 9 10)) = Ok (duration n).
Proof.
  destruct (generate_melody_preview_ok MOCK_MODE req) as (b & Hbeat & Hb & Hres).
  eexists. exists b. split; [exact Hres |]. split; [assumption |].
  cbn [midiJson mj_notes]. intros i s Hi Hs.
  exists (note_of b (cursor b i) (Z.of_nat i) (Z.of_nat s)).
  split; [apply (notes_from_nth b _ 0 i s); assumption |].
  split; [reflexivity |].
  split; [apply note_of_time; assumption | apply note_of_duration; assumption].
Qed.

(** C3, as stated, fails at [tempo = 0]: [req.tempo or 96] reads a zero
    tempo as missing, so the beat length is [60 / 96] and not
    [60 / clamp(0, 60, 180) = 60 / 60]; the first line then ends at
    1250 ms, not at 2000 ms. *)
Lemma C3_counterexample :
  beat_sec_of (Some 0) <> beat_at (clamp_spec 0 60 180) /\
  beat_sec_of (Some 0) = beat_at 96 /\
  (exists res,
      generate_melody_preview true (request hello_world (Some 0)) = Ok res /\
      map end_ms (timestamps res) = [1250; 2500]) /\
  (exists res,
      generate_melody_preview true (request hello_world (Some 60)) = Ok res /\
      map end_ms (timestamps res) = [2000; 4000]).
Proof.
  split; [vm_compute; discriminate |].
  split; [reflexivity |].
  split; eexists; (split; [vm_compute; reflexivity | reflexivity]).
Qed.

Lemma clamp_spec_max_min (x : Z) : clamp_spec x 60 180 = Z.max 60 (Z.min x 180).
Proof.
  unfold clamp_spec.
  destruct (Z.ltb_spec x 60); [lia |]. destruct (Z.ltb_spec 180 x); lia.
Qed.

(** C3, amended: for every requested tempo other than zero (below 60,
    above 180 and negative included) the tempo used for all timing math is
    [clamp(tempo, 60, 180)], a missing tempo counting as 96: the beat
    length is [60 /] that value, and two requests with the same lyrics
    whose tempi clamp to the same value get the same timestamps and the
    same notes. *)
Theorem C3_effective_tempo
  (MOCK_MODE : bool) (req req' : MelodyPreviewRequest) :
  tempo req <> Some 0 ->
  tempo req' <> Some 0 ->
  lyrics req = lyrics req' ->
  clamp_spec (tempo_or_default_spec (tempo req)) 60 180
  = clamp_spec (tempo_or_default_spec (tempo req')) 60 180 ->
  beat_sec_of (tempo req)
  = beat_at (clamp_spec (tempo_or_default_spec (tempo req)) 60 180) /\
  exists res res',
    generate_melody_preview MOCK_MODE req = Ok res /\
    generate_melody_preview MOCK_MODE req' = Ok res' /\
    timestamps res = timestamps res' /\
    mj_notes (midiJson res) = mj_notes (midiJson res').
Proof.
  intros Hz Hz' Hl Hc.
  assert (forall r, tempo r <> Some 0 ->
                    beat_sec_of (tempo r)
                    = beat_at (clamp_spec (tempo_or_default_spec (tempo r)) 60 180))
    as Hbeat.
  { intros r Hr. rewrite clamp_spec_max_min. unfold beat_sec_of, effective_tempo.
    destruct (tempo r) as [[| p | p] |]; [contradiction | reflexivity ..]. }
  split; [apply Hbeat; assumption |].
  destruct (generate_melody_preview_ok MOCK_MODE req) as (b & Hb1 & _ & Hres).
  destruct (generate_melody_preview_ok MOCK_MODE req') as (b' & Hb1' & _ & Hres').
  assert (b = b') as <-.
  { rewrite Hbeat, Hc, <- Hbeat, Hb1' in Hb1 by assumption.
    injection Hb1 as <-. reflexivity. }
  do 2 eexists. split; [exact Hres |]. split; [exact Hres' |].
  cbn [timestamps midiJson mj_notes]. rewrite Hl. split; reflexivity.
Qed.

(** C3, witnesses: tempo 30 against 60, tempo 500 against 180, a missing
    tempo against 96. *)
Lemma C3_effective_tempo_witness :
  (beat_sec_of (Some 30) = beat_at 60 /\
   exists res res',
     generate_melody_preview true (request hello_world (Some 30)) = Ok res /\
     generate_melody_preview true (request hello_world (Some 60)) = Ok res' /\
     timestamps res = timestamps res' /\
     mj_notes (midiJson res) = mj_notes (midiJson res')) /\
  (beat_sec_of (Some 500) = beat_at 180 /\
   exists res res',
     generate_melody_preview true (request hello_world (Some 500)) = Ok res /\
     generate_melody_preview true (request hello_world (Some 180)) = Ok res' /\
     timestamps res = timestamps res' /\
     mj_notes (midiJson res) = mj_notes (midiJson res')) /\
  (beat_sec_of None = beat_at 96 /\
   exists res res',
     generate_melody_preview true (request hello_world None) = Ok res /\
     generate_melody_preview true (request hello_world (Some 96)) = Ok res' /\
     timestamps res = timestamps res' /\
     mj_notes (midiJson res) = mj_notes (midiJson res')).
Proof.
  split; [| split].
  - apply (C3_effective_tempo true (request hello_world (Some 30))
             (request hello_world (Some 60)));
      [discriminate | discriminate | reflexivity | reflexivity].
  - apply (C3_effective_tempo true (request hello_world (Some 500))
             (request hello_world (Some 180)));
      [discriminate | discriminate | reflexivity | reflexivity].
  - apply (C3_effective_tempo true (request hello_world None)
             (request hello_world (Some 96)));
      [discriminate | discriminate | reflexivity | reflexivity].
Defined.

(** C4, as stated, fails on the duration: with [beat_seconds = 0.5] a note
    lasts [round(0.5 * 0.5 * 0.9, 3) = 0.225] seconds, not [0.45]. *)
Lemma C4_counterexample :
  ~ (exists res n,
        generate_melody_preview true (request hello_world (Some 120)) = Ok res /\
        hd_error (mj_notes (midiJson res)) = Some n /\
        midi n = 60 /\ time n = S754_zero false /\ duration n = literal 45 100).
Proof.
  intros (res & n & Hres & Hn & _ & _ & Hd).
  vm_compute in Hres. injection Hres as <-.
  vm_compute in Hn. injection Hn as <-.
  vm_compute in Hd. discriminate.
Qed.

(** C4, amended: for the lyrics ["Hello\nWorld"] with [tempo = 120],
    [beat_seconds = 0.5]; line 0 runs from 0 to 1000 ms and line 1 from
    1000 to 2000 ms; there are exactly 8 notes; the first note has
    [midi = 60], [time = 0.0] and [duration = 0.225]. *)
Theorem C4_hello_world (MOCK_MODE : bool) :
  beat_sec_of (Some 120) = Ok (literal 5 10) /\
  exists res n,
    generate_melody_preview MOCK_MODE (request hello_world (Some 120)) = Ok res /\
    timestamps res
    = [ {| lineText := of_string "Hello"; start_ms := 0; end_ms := 1000 |};
        {| lineText := of_string "World"; start_ms := 1000; end_ms := 2000 |} ] /\
    List.length (mj_notes (midiJson res)) = 8%nat /\
    hd_error (mj_notes (midiJson res)) = Some n /\
    midi n = 60 /\ time n = S754_zero false /\ duration n = literal 225 1000.
Proof.
  split; [vm_compute; reflexivity |].
  destruct MOCK_MODE; do 2 eexists;
    (split; [vm_compute; reflexivity |]);
    cbn [timestamps midiJson mj_notes hd_error List.length midi time duration];
    repeat split; vm_compute; reflexivity.
Qed.

(** C5: for every input the [tempo] echoed in [midiJson] is the raw tempo of
    the request, not the clamped one, also outside [60, 180]; a request that
    leaves the tempo out carries the default 96. *)
Theorem C5_tempo_echoed_raw (MOCK_MODE : bool) (req : MelodyPreviewRequest) :
  (exists res,
      generate_melody_preview MOCK_MODE req = Ok res /\
      mj_tempo (midiJson res) = tempo req) /\
  (forall (T : Z) (l : str) (k s : field str),
      exists res,
        generate_melody_preview MOCK_MODE
          (MelodyPreviewRequest_init l (Given (Some T)) k s) = Ok res /\
        mj_tempo (midiJson res) = Some T) /\
  (forall (l : str) (k s : field str),
      exists res,
        generate_melody_preview MOCK_MODE
          (MelodyPreviewRequest_init l Absent k s) = Ok res /\
        mj_tempo (midiJson res) = Some 96).
Proof.
  assert (forall r, exists res,
             generate_melody_preview MOCK_MODE r = Ok res /\
             mj_tempo (midiJson res) = tempo r) as H.
  { intros r. destruct (generate_melody_preview_ok MOCK_MODE r) as (b & _ & _ & Hres).
    eexists. split; [exact Hres | reflexivity]. }
  split; [apply H |]. split; intros; apply H.
Qed.

(** C6, as stated, fails on lyrics without a non-blank line: the empty
    lyrics have no lyric line, and the response has two timestamps. *)
Lemma C6_counterexample :
  lyric_lines [] = [] /\
  exists res,
    generate_melody_preview true (request [] (Some 96)) = Ok res /\
    List.length (timestamps res) = 2%nat /\
    map lineText (timestamps res) <> lyric_lines [].
Proof.
  split; [reflexivity |].
  eexists. split; [vm_compute; reflexivity |].
  split; [reflexivity | discriminate].
Qed.

(** C6, amended: for every input the timestamps list has exactly one entry
    per line, in order, where the lines are the non-blank trimmed lines of
    the lyrics when there is at least one and the two fallback lines
    otherwise; every [lineText] is non-empty and trimmed; and the notes
    list has exactly 4 entries per line. *)
Theorem C6_one_entry_per_line (MOCK_MODE : bool) (req : MelodyPreviewRequest) :
  exists res,
    generate_melody_preview MOCK_MODE req = Ok res /\
    map lineText (timestamps res)
    = match lyric_lines (lyrics req) with
      | [] => fallback_lines
      | ls => ls
      end /\
    Forall (fun ts => truthy (lineText ts) = true /\ strip (lineText ts) = lineText ts)
      (timestamps res) /\
    List.length (mj_notes (midiJson res)) = (4 * List.length (timestamps res))%nat.
Proof.
  destruct (generate_melody_preview_ok MOCK_MODE req) as (b & _ & _ & Hres).
  eexists. split; [exact Hres |]. cbn [timestamps midiJson mj_notes].
  split; [apply timestamps_from_text |]. split.
  - rewrite <- (Forall_map lineText
                  (fun l => truthy l = true /\ strip l = l)).
    rewrite timestamps_from_text. apply lines_or_fallback_trimmed.
  - rewrite notes_from_length, timestamps_from_length. reflexivity.
Qed.

(** C7: for every lyrics without a non-blank trimmed line, the generator
    takes the two fallback lines ["la la la"] and ["dum dum"]: exactly 2
    timestamp entries, with those texts in that order, and exactly 8
    notes. *)
Theorem C7_fallback_lines (MOCK_MODE : bool) (req : MelodyPreviewRequest) :
  lyric_lines (lyrics req) = [] ->
  exists res,
    generate_melody_preview MOCK_MODE req = Ok res /\
    map lineText (timestamps res) = [of_string "la la la"; of_string "dum dum"] /\
    List.length (timestamps res) = 2%nat /\
    List.length (mj_notes (midiJson res)) = 8%nat.
Proof.
  intros Hl.
  destruct (generate_melody_preview_ok MOCK_MODE req) as (b & _ & _ & Hres).
  eexists. split; [exact Hres |]. cbn [timestamps midiJson mj_notes].
  unfold lines_or_fallback. rewrite Hl.
  rewrite timestamps_from_text, timestamps_from_length, notes_from_length.
  repeat split.
Qed.

(** C7, witnesses: the empty lyrics, and lyrics of blanks and line breaks
    only (space, LF, tab, CR LF). *)
Lemma C7_fallback_lines_witness :
  (exists res,
      generate_melody_preview true (request [] None) = Ok res /\
      map lineText (timestamps res) = [of_string "la la la"; of_string "dum dum"] /\
      List.length (timestamps res) = 2%nat /\
      List.length (mj_notes (midiJson res)) = 8%nat) /\
  (exists res,
      generate_melody_preview true (request [32; 10; 9; 13; 10; 32]%N None) = Ok res /\
      map lineText (timestamps res) = [of_string "la la la"; of_string "dum dum"] /\
      List.length (timestamps res) = 2%nat /\
      List.length (mj_notes (midiJson res)) = 8%nat).
Proof.
  split.
  - exact (C7_fallback_lines true (request [] None) eq_refl).
  - exact (C7_fallback_lines true (request [32; 10; 9; 13; 10; 32]%N None)
             (whitespace_only_no_lines [32; 10; 9; 13; 10; 32]%N eq_refl)).
Defined.

(** C8: the generator is total: for every lyrics, every integer or missing
    tempo and every key and style it returns a response, and neither the
    notes nor the timestamps of the response are empty. *)
Theorem C8_total (MOCK_MODE : bool) (req : MelodyPreviewRequest) :
  exists res,
    generate_melody_preview MOCK_MODE req = Ok res /\
    mj_notes (midiJson res) <> [] /\
    timestamps res <> [].
Proof.
  destruct (generate_melody_preview_ok MOCK_MODE req) as (b & _ & _ & Hres).
  eexists. split; [exact Hres |]. cbn [timestamps midiJson mj_notes].
  pose proof (lines_or_fallback_nonempty (lyrics req)) as Hne.
  destruct (lines_or_fallback (lyrics req)) as [| l ls]; [contradiction |].
  split; discriminate.
Qed.

(** C10: for every input, every note of the response has a [midi] value
    between 60 and 70, hence within the MIDI range 0 to 127. *)
Theorem C10_midi_range (MOCK_MODE : bool) (req : MelodyPreviewRequest) :
  exists res,
    generate_melody_preview MOCK_MODE req = Ok res /\
    Forall (fun n => 60 <= midi n <= 70 /\ 0 <= midi n <= 127)
      (mj_notes (midiJson res)).
Proof.
  destruct (generate_melody_preview_ok MOCK_MODE req) as (b & _ & _ & Hres).
  eexists. split; [exact Hres |]. cbn [midiJson mj_notes].
  eapply Forall_impl; [| apply notes_from_midi].
  cbn beta. intros n Hn. lia.
Qed.

(** * Further properties of the generator *)

Section MelodyShape.

Variable b : float.

Lemma notes_from_words (i : nat) (lines lines' : list str) :
  List.length lines = List.length lines' ->
  notes_from b i lines = notes_from b i lines'.
Proof.
  revert i lines'. induction lines as [| l lines IH]; intros i [| l' lines'] Hlen;
    try discriminate; [reflexivity |].
  cbn [notes_from]. f_equal. apply IH. cbn in Hlen. lia.
Qed.

Lemma windows_words (i : nat) (lines lines' : list str) :
  List.length lines = List.length lines' ->
  map window (timestamps_from b i lines) = map window (timestamps_from b i lines').
Proof.
  revert i lines'. induction lines as [| l lines IH]; intros i [| l' lines'] Hlen;
    try discriminate; [reflexivity |].
  cbn [timestamps_from map]. f_equal. apply IH. cbn in Hlen. lia.
Qed.

Lemma timestamps_from_app (i : nat) (lines more : list str) :
  timestamps_from b i (lines ++ more)
  = timestamps_from b i lines ++ timestamps_from b (i + List.length lines) more.
Proof.
  revert i. induction lines as [| l lines IH]; intros i.
  - cbn. rewrite Nat.add_0_r. reflexivity.
  - cbn [app timestamps_from List.length]. rewrite IH.
    replace (S i + List.length lines)%nat with (i + S (List.length lines))%nat by lia.
    reflexivity.
Qed.

Lemma notes_from_app (i : nat) (lines more : list str) :
  notes_from b i (lines ++ more)
  = notes_from b i lines ++ notes_from b (i + List.length lines) more.
Proof.
  revert i. induction lines as [| l lines IH]; intros i.
  - cbn. rewrite Nat.add_0_r. reflexivity.
  - cbn [app notes_from List.length]. rewrite IH, <- app_assoc.
    replace (S i + List.length lines)%nat with (i + S (List.length lines))%nat by lia.
    reflexivity.
Qed.

End MelodyShape.

(** X1: the melody does not depend on the words: two requests with the
    same tempo and the same number of lines get the same notes and the
    same time windows, whatever their texts, keys, styles and mock modes. *)
Theorem melody_independent_of_words
  (MOCK_MODE MOCK_MODE' : bool) (req req' : MelodyPreviewRequest) :
  tempo req = tempo req' ->
  List.length (lines_or_fallback (lyrics req))
  = List.length (lines_or_fallback (lyrics req')) ->
  exists res res',
    generate_melody_preview MOCK_MODE req = Ok res /\
    generate_melody_preview MOCK_MODE' req' = Ok res' /\
    mj_notes (midiJson res) = mj_notes (midiJson res') /\
    map window (timestamps res) = map window (timestamps res').
Proof.
  intros Ht Hlen.
  destruct (generate_melody_preview_ok MOCK_MODE req) as (b & Hb1 & _ & Hres).
  destruct (generate_melody_preview_ok MOCK_MODE' req') as (b' & Hb1' & _ & Hres').
  assert (b = b') as <- by (rewrite Ht, Hb1' in Hb1; injection Hb1 as <-; reflexivity).
  do 2 eexists. split; [exact Hres |]. split; [exact Hres' |].
  cbn [timestamps midiJson mj_notes].
  split; [apply notes_from_words | apply windows_words]; assumption.
Qed.

Lemma melody_independent_of_words_witness :
  exists res res',
    generate_melody_preview true (request hello_world (Some 120)) = Ok res /\
    generate_melody_preview false
      {| lyrics := of_string "la" ++ [13; 10]%N ++ of_string "  di da  ";
         tempo := Some 120;
         key := Some (of_string "D");
         style := None |} = Ok res' /\
    mj_notes (midiJson res) = mj_notes (midiJson res') /\
    map window (timestamps res) = map window (timestamps res').
Proof.
  apply melody_independent_of_words; reflexivity.
Defined.

(** X2: [key] and [style] are echoed as they came, and [guideAudioUrl] is
    the placeholder data URI when the mock mode is on and [None] when it is
    off, for every request. *)
Theorem passthrough_fields (MOCK_MODE : bool) (req : MelodyPreviewRequest) :
  exists res,
    generate_melody_preview MOCK_MODE req = Ok res /\
    mj_key (midiJson res) = key req /\
    mj_style (midiJson res) = style req /\
    guideAudioUrl res = (if MOCK_MODE then Some guide_audio_placeholder else None) /\
    (guideAudioUrl res = None <-> MOCK_MODE = false).
Proof.
  destruct (generate_melody_preview_ok MOCK_MODE req) as (b & _ & _ & Hres).
  eexists. split; [exact Hres |]. cbn [midiJson mj_key mj_style guideAudioUrl].
  repeat split; destruct MOCK_MODE; congruence.
Qed.

(** * Further properties of the line extraction *)

Section LyricLines.

Lemma str_or_nil (s : str) : str_or s [] = s.
Proof. destruct s; reflexivity. Qed.

Lemma lyric_lines_eq (s : str) :
  lyric_lines s = map strip (filter nonblank (splitlines s)).
Proof. unfold lyric_lines. rewrite str_or_nil. reflexivity. Qed.

Lemma filter_nonblank_rev_cur (cur : str) (rest : list str) :
  filter nonblank (match cur with [] => [] | _ => [rev cur] end ++ rest)
  = filter nonblank (rev cur :: rest).
Proof. destruct cur; reflexivity. Qed.

(** Joining two strings with a line feed joins their non-blank lines. *)
Lemma splitlines_from_join (n : nat) :
  forall (s cur s' : str),
    (List.length s <= n)%nat ->
    filter nonblank (splitlines_from cur (s ++ 10%N :: s'))
    = filter nonblank (splitlines_from cur s) ++ filter nonblank (splitlines s').
Proof.
  induction n as [| n IH]; intros s cur s' Hn.
  - destruct s; [| cbn in Hn; lia].
    cbn [app splitlines_from]. change (is_linebreak 10) with true. cbv iota.
    rewrite <- filter_app, filter_nonblank_rev_cur.
    destruct s'; reflexivity.
  - destruct s as [| c rest].
    + cbn [app splitlines_from]. change (is_linebreak 10) with true. cbv iota.
      rewrite <- filter_app, filter_nonblank_rev_cur.
      destruct s'; reflexivity.
    + cbn [List.length] in Hn. cbn [app splitlines_from].
      destruct (is_linebreak c) eqn:Hc.
      * destruct rest as [| c' rest'].
        -- cbn [app]. change (10 =? 10)%N with true. rewrite andb_true_r.
           destruct (c =? 13)%N.
           ++ cbn [splitlines_from filter]. destruct (nonblank (rev cur)); reflexivity.
           ++ cbn [splitlines_from]. change (is_linebreak 10) with true. cbv iota.
              cbn [filter]. change (nonblank (rev [])) with false. cbv iota.
              destruct (nonblank (rev cur)); destruct s'; reflexivity.
        -- cbn [app List.length] in *.
           destruct ((c =? 13)%N && (c' =? 10)%N).
           ++ cbn [filter]. rewrite (IH rest' [] s') by lia.
              destruct (nonblank (rev cur)); reflexivity.
           ++ cbn [filter].
              change (c' :: rest' ++ 10%N :: s') with ((c' :: rest') ++ 10%N :: s').
              rewrite (IH (c' :: rest') [] s') by (cbn [List.length]; lia).
              destruct (nonblank (rev cur)); reflexivity.
      * apply IH. lia.
Qed.

Lemma lyric_lines_join (s s' : str) :
  lyric_lines (s ++ 10%N :: s') = lyric_lines s ++ lyric_lines s'.
Proof.
  rewrite !lyric_lines_eq. unfold splitlines at 1.
  rewrite (splitlines_from_join (List.length s) s [] s' (Nat.le_refl _)).
  rewrite map_app. reflexivity.
Qed.

(** The lines of [splitlines] hold no line boundary. *)
Lemma splitlines_from_no_linebreak (n : nat) :
  forall (s cur : str),
    (List.length s <= n)%nat ->
    no_linebreak cur = true ->
    Forall (fun l => no_linebreak l = true) (splitlines_from cur s).
Proof.
  induction n as [| n IH]; intros s cur Hn Hcur.
  - destruct s; [| cbn in Hn; lia].
    cbn. destruct cur as [| d cur]; constructor; [| constructor].
    apply (forallb_rev _ (d :: cur)). assumption.
  - destruct s as [| c rest].
    + cbn. destruct cur as [| d cur]; constructor; [| constructor].
      apply (forallb_rev _ (d :: cur)). assumption.
    + cbn [List.length] in Hn. cbn [splitlines_from].
      destruct (is_linebreak c) eqn:Hc.
      * constructor; [apply forallb_rev; assumption |].
        destruct rest as [| c' rest']; [constructor |].
        cbn [List.length] in Hn.
        destruct ((c =? 13)%N && (c' =? 10)%N); apply IH;
          cbn [List.length]; try lia; reflexivity.
      * apply IH; [lia |]. unfold no_linebreak in *. cbn [forallb].
        rewrite Hc, Hcur. reflexivity.
Qed.

Lemma lstrip_forall (P : N -> bool) (l : str) :
  forallb P l = true -> forallb P (lstrip l) = true.
Proof.
  induction l as [| c l IH]; [reflexivity |].
  cbn [lstrip]. destruct (isspace c); [| trivial].
  cbn [forallb]. intros H. apply andb_prop in H. apply IH, H.
Qed.

Lemma strip_forall (P : N -> bool) (l : str) :
  forallb P l = true -> forallb P (strip l) = true.
Proof.
  intros H. unfold strip, rstrip.
  apply forallb_rev, lstrip_forall, forallb_rev, lstrip_forall. assumption.
Qed.

Lemma lyric_lines_no_linebreak (s : str) :
  Forall (fun l => no_linebreak l = true) (lyric_lines s).
Proof.
  rewrite lyric_lines_eq. apply Forall_map.
  pose proof (splitlines_from_no_linebreak (List.length s) s [] (Nat.le_refl _) eq_refl) as H.
  fold (splitlines s) in H.
  induction H as [| l ls Hl _ IH]; [constructor |].
  cbn [filter]. destruct (nonblank l); [constructor |]; try assumption.
  apply strip_forall. assumption.
Qed.

Lemma lines_or_fallback_no_linebreak (s : str) :
  Forall (fun l => no_linebreak l = true) (lines_or_fallback s).
Proof.
  unfold lines_or_fallback. pose proof (lyric_lines_no_linebreak s) as H.
  destruct (lyric_lines s); [repeat constructor | assumption].
Qed.

(** A line without boundary is its own only line. *)
Lemma splitlines_from_single (l cur : str) :
  no_linebreak l = true ->
  splitlines_from cur l
  = match rev cur ++ l with [] => [] | _ => [rev cur ++ l] end.
Proof.
  revert cur. induction l as [| c l IH]; intros cur Hl.
  - cbn [splitlines_from]. rewrite app_nil_r.
    destruct cur as [| d cur]; [reflexivity |].
    destruct (rev (d :: cur)) eqn:Hr; [| reflexivity].
    apply (f_equal (@List.length N)) in Hr. rewrite length_rev in Hr. discriminate.
  - unfold no_linebreak in Hl. cbn [forallb] in Hl.
    apply andb_prop in Hl. destruct Hl as [Hc Hl].
    cbn [splitlines_from]. destruct (is_linebreak c); [discriminate |].
    rewrite IH by assumption. cbn [rev]. rewrite <- app_assoc. reflexivity.
Qed.

Lemma lyric_lines_single (l : str) :
  no_linebreak l = true -> truthy l = true -> strip l = l ->
  lyric_lines l = [l].
Proof.
  intros Hnl Ht Hs. rewrite lyric_lines_eq. unfold splitlines.
  rewrite splitlines_from_single by assumption. cbn [rev app].
  destruct l as [| c l]; [discriminate |].
  cbn [filter]. unfold nonblank. rewrite Hs. cbn [truthy map].
  rewrite Hs. reflexivity.
Qed.

Lemma lyric_lines_join_lines (ls : list str) :
  Forall (fun l => no_linebreak l = true) ls ->
  Forall (fun l => truthy l = true /\ strip l = l) ls ->
  lyric_lines (join_lines ls) = ls.
Proof.
  intros Hnl Htr. induction ls as [| l ls IH]; [reflexivity |].
  inversion Hnl as [| ? ? Hl Hls]; subst. inversion Htr as [| ? ? [Ht Hs] Htrs]; subst.
  destruct ls as [| l' ls].
  - cbn [join_lines]. apply lyric_lines_single; assumption.
  - change (join_lines (l :: l' :: ls)) with (l ++ 10%N :: join_lines (l' :: ls)).
    rewrite lyric_lines_join, lyric_lines_single, IH by assumption. reflexivity.
Qed.

End LyricLines.

(** X3: no [lineText] of a response holds a line boundary: each entry is a
    single line. *)
Theorem line_text_single_line (MOCK_MODE : bool) (req : MelodyPreviewRequest) :
  exists res,
    generate_melody_preview MOCK_MODE req = Ok res /\
    Forall (fun ts => forall c, In c (lineText ts) -> is_linebreak c = false)
      (timestamps res).
Proof.
  destruct (generate_melody_preview_ok MOCK_MODE req) as (b & _ & _ & Hres).
  eexists. split; [exact Hres |]. cbn [timestamps].
  rewrite <- (Forall_map lineText
                (fun l => forall c, In c l -> is_linebreak c = false)).
  rewrite timestamps_from_text.
  eapply Forall_impl; [| apply lines_or_fallback_no_linebreak].
  cbn beta. intros l Hl c Hc. unfold no_linebreak in Hl.
  rewrite forallb_forall in Hl. specialize (Hl c Hc).
  destruct (is_linebreak c); [discriminate | reflexivity].
Qed.

(** X4: the lyric lines of two texts joined by a line feed are the lyric
    lines of the first followed by those of the second. *)
Theorem lyric_lines_concat (s s' : str) :
  lyric_lines (s ++ [10%N] ++ s') = lyric_lines s ++ lyric_lines s'.
Proof. apply lyric_lines_join. Qed.

(** X5: the line extraction is a normal form: joining the lyric lines of a
    text with line feeds and extracting again gives the same lines. *)
Theorem lyric_lines_round_trip (s : str) :
  lyric_lines (join_lines (lyric_lines s)) = lyric_lines s.
Proof.
  apply lyric_lines_join_lines;
    [apply lyric_lines_no_linebreak | apply lyric_lines_trimmed].
Qed.

(** X6: lines appended to lyrics that have a lyric line leave the
    timestamps and the notes of the earlier lines as they were: the new
    response extends the old one, by one timestamp per new lyric line. *)
Theorem appending_lines_extends
  (MOCK_MODE : bool) (req : MelodyPreviewRequest) (more : str) :
  lyric_lines (lyrics req) <> [] ->
  exists res res' ts ns,
    generate_melody_preview MOCK_MODE req = Ok res /\
    generate_melody_preview MOCK_MODE
      {| lyrics := lyrics req ++ [10%N] ++ more;
         tempo := tempo req; key := key req; style := style req |} = Ok res' /\
    timestamps res' = timestamps res ++ ts /\
    mj_notes (midiJson res') = mj_notes (midiJson res) ++ ns /\
    map lineText ts = lyric_lines more.
Proof.
  intros Hne.
  destruct (generate_melody_preview_ok MOCK_MODE req) as (b & Hb1 & _ & Hres).
  destruct (generate_melody_preview_ok MOCK_MODE
              {| lyrics := lyrics req ++ [10%N] ++ more;
                 tempo := tempo req; key := key req; style := style req |})
    as (b' & Hb1' & _ & Hres').
  cbn [tempo lyrics key style] in Hb1', Hres'.
  assert (b = b') as <- by (rewrite Hb1' in Hb1; injection Hb1 as <-; reflexivity).
  assert (lines_or_fallback (lyrics req ++ [10%N] ++ more)
          = lines_or_fallback (lyrics req) ++ lyric_lines more) as Hlines.
  { unfold lines_or_fallback. cbn [app]. rewrite lyric_lines_join.
    destruct (lyric_lines (lyrics req)); [contradiction | reflexivity]. }
  rewrite Hlines, timestamps_from_app, notes_from_app in Hres'.
  do 4 eexists. split; [exact Hres |]. split; [exact Hres' |].
  cbn [timestamps midiJson mj_notes].
  split; [reflexivity |]. split; [reflexivity |]. apply timestamps_from_text.
Qed.

Lemma appending_lines_extends_witness :
  exists res res' ts ns,
    generate_melody_preview true (request hello_world (Some 120)) = Ok res /\
    generate_melody_preview true
      {| lyrics := hello_world ++ [10%N] ++ of_string " again ";
         tempo := Some 120;
         key := Some (of_string "C");
         style := Some (of_string "pop") |} = Ok res' /\
    timestamps res' = timestamps res ++ ts /\
    mj_notes (midiJson res') = mj_notes (midiJson res) ++ ns /\
    map lineText ts = lyric_lines (of_string " again ").
Proof.
  apply (appending_lines_extends true (request hello_world (Some 120))
           (of_string " again ")).
  discriminate.
Defined.

(** * Further properties of the timing *)

Section BeatFacts.

Lemma all_tempos_check_more : forallb tempo_check_more all_tempos = true.
Proof. vm_compute. reflexivity. Qed.

Lemma all_beats_eq : all_beats = map (fun T => (T, beat_at T)) all_tempos.
Proof. vm_compute. reflexivity. Qed.

Lemma all_beat_pairs_checked :
  forallb (fun p => forallb (beat_pair_check p) all_beats) all_beats = true.
Proof. vm_compute. reflexivity. Qed.

Lemma all_tempo_pairs_check :
  forallb (fun T => forallb (tempo_pair_check T) all_tempos) all_tempos = true.
Proof.
  pose proof all_beat_pairs_checked as H.
  rewrite all_beats_eq, forallb_forall in H.
  apply forallb_forall. intros T HT. apply forallb_forall. intros T' HT'.
  specialize (H (T, beat_at T) (in_map _ _ _ HT)).
  rewrite forallb_forall in H.
  exact (H (T', beat_at T') (in_map _ _ _ HT')).
Qed.

Lemma in_all_tempos (T : Z) : 60 <= T <= 180 -> In T all_tempos.
Proof.
  intros HT. apply in_map_iff. exists (Z.to_nat (T - 60)). split; [lia |].
  apply in_seq. lia.
Qed.

Lemma beat_sec_of_more (tempo_ : option Z) (b : float) :
  beat_sec_of tempo_ = Ok b -> beat_check_more b = true.
Proof.
  intros Hb.
  pose proof all_tempos_check_more as H. rewrite forallb_forall in H.
  specialize (H _ (in_all_tempos _ (effective_tempo_range tempo_))).
  unfold tempo_check_more in H.
  change (beat_at (effective_tempo tempo_)) with (beat_sec_of tempo_) in H.
  rewrite Hb in H. assumption.
Qed.

End BeatFacts.

(** X7: a faster tempo never gives a longer beat, and the beat length
    always lies between [1/3] and [1] second (the floats nearest to them). *)
Theorem faster_tempo_shorter_beat (tempo_ tempo_' : option Z) :
  effective_tempo tempo_ <= effective_tempo tempo_' ->
  exists b b',
    beat_sec_of tempo_ = Ok b /\
    beat_sec_of tempo_' = Ok b' /\
    float_le b' b = true /\
    float_le (literal 1 3) b' = true /\
    float_le b (literal 1 1) = true.
Proof.
  intros Hle.
  pose proof (effective_tempo_range tempo_) as HT.
  pose proof (effective_tempo_range tempo_') as HT'.
  pose proof all_tempo_pairs_check as H. rewrite forallb_forall in H.
  assert (forall T T', 60 <= T <= 180 -> 60 <= T' <= 180 ->
                       tempo_pair_check T T' = true) as Hpair.
  { intros T T' H1 H2. specialize (H T (in_all_tempos T H1)).
    rewrite forallb_forall in H. apply H, in_all_tempos, H2. }
  pose proof (Hpair _ _ HT HT') as H1.
  pose proof (Hpair 60 _ ltac:(lia) HT) as H2.
  pose proof (Hpair _ 180 HT' ltac:(lia)) as H3.
  unfold tempo_pair_check, beat_pair_check in H1, H2, H3.
  cbn [fst snd] in H1, H2, H3.
  change (beat_at (effective_tempo tempo_)) with (beat_sec_of tempo_) in *.
  change (beat_at (effective_tempo tempo_')) with (beat_sec_of tempo_') in *.
  destruct (beat_sec_of tempo_) as [b | ]; [| discriminate].
  destruct (beat_sec_of tempo_') as [b' | ]; [| discriminate].
  exists b, b'. split; [reflexivity |]. split; [reflexivity |].
  change (beat_at 60) with (Ok (literal 1 1)) in H2.
  replace (beat_at 180) with (Ok (literal 1 3)) in H3 by (vm_compute; reflexivity).
  apply orb_prop in H1. apply orb_prop in H2. apply orb_prop in H3.
  repeat split.
  - destruct H1 as [H1 | H1]; [lia | assumption].
  - destruct H3 as [H3 | H3]; [lia | assumption].
  - destruct H2 as [H2 | H2]; [lia | assumption].
Qed.

Lemma faster_tempo_shorter_beat_witness :
  exists b b',
    beat_sec_of (Some 90) = Ok b /\
    beat_sec_of (Some 500) = Ok b' /\
    float_le b' b = true /\
    float_le (literal 1 3) b' = true /\
    float_le b (literal 1 1) = true.
Proof.
  apply (faster_tempo_shorter_beat (Some 90) (Some 500)).
  vm_compute. discriminate.
Defined.

Section StartAndValues.

Variable b : float.
Hypothesis Hb : beat_check b = true.
Hypothesis Hmore : beat_check_more b = true.

Lemma first_offset_zero : mul (mul (of_Z 0) step) b = S754_zero false.
Proof.
  unfold beat_check_more in Hmore.
  repeat (apply andb_prop in Hmore; destruct Hmore as [Hmore ?]).
  destruct (mul (mul (of_Z 0) step) b) as [[] | | |]; try discriminate.
  reflexivity.
Qed.

Lemma duration_bounds :
  exists d,
    round3 (mul (mul step b) (literal 9 10)) = Ok d /\
    finite_nonneg d = true /\
    float_le (literal 15 100) d = true /\ float_le d (literal 45 100) = true.
Proof.
  unfold beat_check_more in Hmore.
  apply andb_prop in Hmore. destruct Hmore as [_ H].
  destruct (round3 (mul (mul step b) (literal 9 10))) as [d |]; [| discriminate].
  exists d. repeat (apply andb_prop in H; destruct H as [H ?]).
  repeat split; assumption.
Qed.

(** [round(x, 3)] of a value in range is a float in range of signs. *)
Lemma round3_finite (x : float) :
  in_range x -> exists r, round3 x = Ok r /\ finite_nonneg r = true.
Proof.
  intros [-> | [Hx Hxv]]; [eexists; split; reflexivity |].
  destruct (normal_val x Hx) as (m & e & -> & Hm & He & Hv).
  rewrite Hv in Hxv.
  pose proof (exponent_of_value (Z.pos m) e 254 ltac:(lia) ltac:(lia) ltac:(lia) Hxv) as He2.
  cbn [round3].
  set (k := match e with
            | Z.neg p => rne_div (Z.pos m * 1000) (2 ^ Z.pos p)
            | _ => Z.pos m * 2 ^ e * 1000
            end).
  assert (k < 2 ^ 66) as Hk.
  { subst k. destruct e as [| p | p].
    - change (2 ^ 0) with 1. lia.
    - assert (2 ^ Z.pos p <= 2 ^ 2) by (apply Z.pow_le_mono_r; lia). nia.
    - pose proof (rne_div_range (Z.pos m * 1000) (2 ^ Z.pos p)) as Hr.
      pose proof (pow2_pos (Z.pos p) ltac:(lia)) as HP.
      assert (Z.pos m * 1000 / 2 ^ Z.pos p <= Z.pos m * 1000)
        by (apply Z.div_le_upper_bound; nia).
      lia. }
  destruct k as [| k' | k']; try (eexists; split; reflexivity).
  pose proof (div_1000_finite false k' Hk) as Hfin.
  destruct (SFdiv prec emax (S754_finite false k' 0) (S754_finite false 1000 0))
    as [s | s | | s m' e'];
    cbn [zero_or_finite] in Hfin; try contradiction;
    [| destruct Hfin as [Hs _]]; subst s; eexists; split; reflexivity.
Qed.

Lemma notes_from_finite (i : nat) (lines : list str) :
  Forall (fun n => finite_nonneg (time n) = true /\
                   finite_nonneg (duration n) = true /\
                   float_le (literal 15 100) (duration n) = true /\
                   float_le (duration n) (literal 45 100) = true)
    (notes_from b i lines).
Proof.
  revert i. induction lines as [| l lines IH]; intros i; [constructor |].
  cbn [notes_from]. apply Forall_app. split; [| apply IH].
  apply Forall_map, Forall_forall. intros s Hs.
  cbn [note_of time duration]. split.
  - destruct (round3_finite (add (cursor b i) (mul (mul (of_Z s) step) b)))
      as (r & -> & Hr); [| exact Hr].
    apply add_in_range;
      [apply cursor_in_range | apply step_offset_small]; assumption.
  - destruct duration_bounds as (d & -> & Hd). exact Hd.
Qed.

Lemma first_note_time :
  time (note_of b (cursor b 0) 0 0) = S754_zero false.
Proof.
  cbn [note_of time cursor Nat.iter]. rewrite first_offset_zero. reflexivity.
Qed.

End StartAndValues.

(** X8: the melody starts at zero: the first timestamp has [start_ms = 0]
    and the first note has [time = 0.0] and [midi = 60], for every request. *)
Theorem melody_starts_at_zero (MOCK_MODE : bool) (req : MelodyPreviewRequest) :
  exists res ts n,
    generate_melody_preview MOCK_MODE req = Ok res /\
    hd_error (timestamps res) = Some ts /\ start_ms ts = 0 /\
    hd_error (mj_notes (midiJson res)) = Some n /\
    time n = S754_zero false /\ midi n = 60.
Proof.
  destruct (generate_melody_preview_ok MOCK_MODE req) as (b & Hb1 & Hb & Hres).
  pose proof (beat_sec_of_more _ _ Hb1) as Hmore.
  pose proof (lines_or_fallback_nonempty (lyrics req)) as Hne.
  destruct (lines_or_fallback (lyrics req)) as [| l ls] eqn:Hl; [contradiction |].
  do 3 eexists. split; [exact Hres |].
  cbn [timestamps midiJson mj_notes timestamps_from notes_from hd_error].
  split; [reflexivity |]. split; [reflexivity |].
  split; [reflexivity |].
  split; [apply first_note_time; assumption | reflexivity].
Qed.

(** X9: every note of a response has a [time] that is finite and not
    negative, and a [duration] that is finite and lies between [0.15] and
    [0.45] seconds: no NaN, no infinity, no negative value. *)
Theorem note_values_finite (MOCK_MODE : bool) (req : MelodyPreviewRequest) :
  exists res,
    generate_melody_preview MOCK_MODE req = Ok res /\
    Forall (fun n => finite_nonneg (time n) = true /\
                     finite_nonneg (duration n) = true /\
                     float_le (literal 15 100) (duration n) = true /\
                     float_le (duration n) (literal 45 100) = true)
      (mj_notes (midiJson res)).
Proof.
  destruct (generate_melody_preview_ok MOCK_MODE req) as (b & Hb1 & Hb & Hres).
  pose proof (beat_sec_of_more _ _ Hb1) as Hmore.
  eexists. split; [exact Hres |]. cbn [midiJson mj_notes].
  apply notes_from_finite; assumption.
Qed.

Section RoundingError.

(** Rounding moves a value by at most half a unit in the last place. *)
Lemma rnd_error (N : Z) :
  0 <= N ->
  2 * N - 2 ^ Z.max 0 (Z.log2 N - 52) <= 2 * rnd N
  <= 2 * N + 2 ^ Z.max 0 (Z.log2 N - 52).
Proof.
  intros HN. unfold rnd.
  set (k := Z.max 0 (Z.log2 N - 52)).
  pose proof (pow2_pos k ltac:(lia)) as HP.
  set (P := 2 ^ k) in *.
  pose proof (Z.div_mod N P ltac:(lia)) as Hdm.
  pose proof (Z.mod_pos_bound N P HP) as Hr.
  unfold rne_div.
  destruct (Z.compare_spec (2 * (N mod P)) P);
    [destruct (Z.even (N / P)) | |]; lia.
Qed.

Lemma rnd_error_below (N B : Z) :
  0 <= N < 2 ^ B -> 53 <= B ->
  2 * N - 2 ^ (B - 53) <= 2 * rnd N <= 2 * N + 2 ^ (B - 53).
Proof.
  intros [HN HB] H53.
  pose proof (rnd_error N HN) as He.
  assert (2 ^ Z.max 0 (Z.log2 N - 52) <= 2 ^ (B - 53)) as Hk.
  { apply Z.pow_le_mono_r; [lia |].
    destruct (Z.eq_dec N 0) as [-> | HN0]; [cbn; lia |].
    pose proof (log2_lt N B ltac:(lia) HB). lia. }
  lia.
Qed.

(** A value with a short significand is not moved at all. *)
Lemma rnd_exact (n j : Z) :
  0 <= n < 2 ^ 53 -> 0 <= j -> rnd (n * 2 ^ j) = n * 2 ^ j.
Proof.
  intros [Hn0 Hn] Hj.
  destruct (Z.eq_dec n 0) as [-> | Hnz]; [reflexivity |].
  pose proof (pow2_pos j Hj) as HPj.
  unfold rnd. rewrite log2_mul_pow2 by lia.
  pose proof (log2_lt n 53 ltac:(lia) Hn) as Hlog.
  set (k := Z.max 0 (Z.log2 n + j - 52)).
  assert (0 <= k <= j) as Hk by lia.
  pose proof (pow2_pos k ltac:(lia)) as HPk.
  assert (n * 2 ^ j = n * 2 ^ (j - k) * 2 ^ k) as Heq
    by (rewrite <- Z.mul_assoc, <- Z.pow_add_r by lia; do 2 f_equal; lia).
  rewrite Heq. unfold rne_div.
  rewrite Z.div_mul, Z.mod_mul by lia. cbn [Z.mul].
  destruct (Z.compare_spec 0 (2 ^ k)); [lia | reflexivity | lia].
Qed.

Lemma add_val (x c : float) :
  in_range x -> small_addend c ->
  val 200 (add x c) = rnd (val 200 x + val 200 c).
Proof.
  intros [-> | [Hx Hxv]] [-> | [Hc Hcv]].
  - reflexivity.
  - destruct (normal_val c Hc) as (m & e & -> & Hm & He & Hv).
    unfold add. cbn [SFadd]. rewrite Hv. cbn [val Z.add].
    rewrite rnd_representable by lia. reflexivity.
  - destruct (normal_val x Hx) as (m & e & -> & Hm & He & Hv).
    unfold add. cbn [SFadd]. rewrite Hv. cbn [val]. rewrite Z.add_0_r.
    rewrite rnd_representable by lia. reflexivity.
  - destruct (add_normal x c Hx Hc) as (m & e & Heq & Hm & He & Hval).
    rewrite Heq. cbn [val]. apply Hval. lia.
Qed.

Lemma val_1000 : val 200 (of_Z 1000) = 1000 * 2 ^ 200.
Proof. vm_compute. reflexivity. Qed.

End RoundingError.

Section LineLengths.

Variable b : float.
Hypothesis Hb : beat_check b = true.
Hypothesis Hmore : beat_check_more b = true.

Lemma line_length_val :
  2 ^ 201 <= 3 * val 200 (mul (of_Z dur_beats) b) + 2 ^ 150 /\
  val 200 (mul (of_Z dur_beats) b) <= 2 ^ 201.
Proof.
  split.
  - unfold beat_check_more in Hmore.
    apply andb_prop in Hmore. destruct Hmore as [H _].
    apply andb_prop in H. destruct H as [_ H]. lia.
  - destruct (line_length_small b Hb) as [-> | [_ H]]; [cbn; lia | assumption].
Qed.

Lemma cursor_step (i : nat) :
  val 200 (cursor b (S i))
  = rnd (val 200 (cursor b i) + val 200 (mul (of_Z dur_beats) b)).
Proof.
  change (cursor b (S i)) with (add (cursor b i) (mul (of_Z dur_beats) b)).
  apply add_val; [apply cursor_in_range | apply line_length_small]; assumption.
Qed.

Lemma cursor_upper (i : nat) :
  Z.of_nat i <= 2 ^ 32 -> val 200 (cursor b i) <= Z.of_nat i * 2 ^ 202.
Proof.
  induction i as [| i IH]; intros Hi; [cbn; lia |].
  specialize (IH ltac:(lia)).
  pose proof line_length_val as [_ HD].
  pose proof (val_nonneg 200 (cursor b i)) as Hv0.
  pose proof (val_nonneg 200 (mul (of_Z dur_beats) b)) as HD0.
  rewrite cursor_step.
  pose proof (rnd_error_below
                (val 200 (cursor b i) + val 200 (mul (of_Z dur_beats) b)) 240
                ltac:(lia) ltac:(lia)) as He.
  change (2 ^ (240 - 53)) with (2 ^ 187) in He. lia.
Qed.

(** Each further line moves [int(t * 1000)] by 666 to 2001. *)
Lemma ms_step_bounds (i : nat) :
  Z.of_nat (S i) <= 2 ^ 32 ->
  666 <= ms_of (cursor b (S i)) - ms_of (cursor b i) <= 2001.
Proof.
  intros Hi.
  pose proof (cursor_upper i ltac:(lia)) as Hup.
  pose proof (cursor_upper (S i) Hi) as Hup'.
  pose proof line_length_val as [HDlo HD].
  pose proof (val_nonneg 200 (cursor b i)) as Hv0.
  pose proof (val_nonneg 200 (cursor b (S i))) as Hv0'.
  pose proof (cursor_step i) as Hstep.
  pose proof (rnd_error_below
                (val 200 (cursor b i) + val 200 (mul (of_Z dur_beats) b)) 240
                ltac:(lia) ltac:(lia)) as He.
  change (2 ^ (240 - 53)) with (2 ^ 187) in He. rewrite <- Hstep in He.
  rewrite !ms_of_val by (apply cursor_in_range; assumption).
  unfold ms_val. rewrite val_1000.
  set (v := val 200 (cursor b i)) in *. set (v' := val 200 (cursor b (S i))) in *.
  set (D := val 200 (mul (of_Z dur_beats) b)) in *.
  pose proof (rnd_error_below (v * (1000 * 2 ^ 200)) 445
                ltac:(lia) ltac:(lia)) as E.
  pose proof (rnd_error_below (v' * (1000 * 2 ^ 200)) 445
                ltac:(lia) ltac:(lia)) as E'.
  change (2 ^ (445 - 53)) with (2 ^ 392) in E, E'.
  set (A := rnd (v * (1000 * 2 ^ 200))) in *.
  set (A' := rnd (v' * (1000 * 2 ^ 200))) in *.
  pose proof (Z.div_mod A (2 ^ 400) ltac:(lia)) as HA.
  pose proof (Z.mod_pos_bound A (2 ^ 400) ltac:(lia)) as HAr.
  pose proof (Z.div_mod A' (2 ^ 400) ltac:(lia)) as HA'.
  pose proof (Z.mod_pos_bound A' (2 ^ 400) ltac:(lia)) as HAr'.
  lia.
Qed.

Lemma timestamps_from_line_lengths (lines : list str) (i : nat) :
  Z.of_nat (i + List.length lines) <= 2 ^ 32 ->
  Forall (fun ts => 666 <= end_ms ts - start_ms ts <= 2001)
    (timestamps_from b i lines).
Proof.
  revert i. induction lines as [| l lines IH]; intros i Hi; [constructor |].
  cbn [List.length] in Hi. cbn [timestamps_from]. constructor.
  - cbn [start_ms end_ms]. apply ms_step_bounds. lia.
  - apply IH. lia.
Qed.

End LineLengths.

(** X10: for lyrics of at most [2 ^ 32] lines, every line lasts between 666
    and 2001 milliseconds: [end_ms - start_ms] lies in that range for every
    timestamp, whatever the tempo. *)
Theorem line_lengths_bounded (MOCK_MODE : bool) (req : MelodyPreviewRequest) :
  Z.of_nat (List.length (lines_or_fallback (lyrics req))) <= 2 ^ 32 ->
  exists res,
    generate_melody_preview MOCK_MODE req = Ok res /\
    Forall (fun ts => 666 <= end_ms ts - start_ms ts <= 2001) (timestamps res).
Proof.
  intros Hlen.
  destruct (generate_melody_preview_ok MOCK_MODE req) as (b & Hb1 & Hb & Hres).
  pose proof (beat_sec_of_more _ _ Hb1) as Hmore.
  eexists. split; [exact Hres |]. cbn [timestamps].
  apply timestamps_from_line_lengths; assumption.
Qed.

Lemma line_lengths_bounded_witness :
  exists res,
    generate_melody_preview true (request hello_world (Some 500)) = Ok res /\
    Forall (fun ts => 666 <= end_ms ts - start_ms ts <= 2001) (timestamps res).
Proof.
  apply (line_lengths_bounded true (request hello_world (Some 500))).
  vm_compute. discriminate.
Defined.

Section ExactLines.

Variable b : float.
Hypothesis Hb : beat_check b = true.

Variable n : Z.
Hypothesis Hn : 0 < n <= 2 ^ 11.
Hypothesis HD : val 200 (mul (of_Z dur_beats) b) = n * 2 ^ 190.

Lemma cursor_exact (i : nat) :
  Z.of_nat i <= 2 ^ 32 -> val 200 (cursor b i) = Z.of_nat i * n * 2 ^ 190.
Proof.
  induction i as [| i IH]; intros Hi; [reflexivity |].
  rewrite (cursor_step b Hb), IH, HD by lia.
  replace (Z.of_nat i * n * 2 ^ 190 + n * 2 ^ 190)
    with (Z.of_nat (S i) * n * 2 ^ 190) by lia.
  apply rnd_exact; [nia | lia].
Qed.

Lemma ms_exact (i : nat) (T : Z) :
  0 < T -> n * T = 122880 -> Z.of_nat i <= 2 ^ 32 ->
  ms_of (cursor b i) = 120000 * Z.of_nat i / T.
Proof.
  intros HT HnT Hi.
  rewrite ms_of_val by (apply cursor_in_range; assumption).
  unfold ms_val. rewrite val_1000, cursor_exact by assumption.
  replace (Z.of_nat i * n * 2 ^ 190 * (1000 * 2 ^ 200))
    with (1000 * Z.of_nat i * n * 2 ^ 390)
    by (change (2 ^ 390) with (2 ^ 190 * 2 ^ 200); ring).
  assert (0 <= Z.of_nat i * n <= 2 ^ 43) as Hin by nia.
  rewrite rnd_exact by lia.
  change (2 ^ 400) with (2 ^ 10 * 2 ^ 390).
  rewrite Z.div_mul_cancel_r by lia.
  rewrite <- (Z.div_mul_cancel_r (1000 * Z.of_nat i * n) (2 ^ 10) T) by lia.
  rewrite <- (Z.div_mul_cancel_r (120000 * Z.of_nat i) T (2 ^ 10)) by lia.
  f_equal; [| lia].
  replace (1000 * Z.of_nat i * n * T) with (1000 * Z.of_nat i * (n * T)) by ring.
  rewrite HnT. lia.
Qed.

Lemma timestamps_from_exact (T : Z) (lines : list str) (i k : nat) (ts : TimestampItem) :
  0 < T -> n * T = 122880 ->
  Z.of_nat (i + List.length lines) <= 2 ^ 32 ->
  nth_error (timestamps_from b i lines) k = Some ts ->
  start_ms ts = 120000 * Z.of_nat (i + k) / T /\
  end_ms ts = 120000 * (Z.of_nat (i + k) + 1) / T.
Proof.
  intros HT HnT. revert i k ts.
  induction lines as [| l lines IH]; intros i k ts Hlen Hk; [destruct k; discriminate |].
  cbn [List.length] in Hlen. destruct k as [| k].
  - cbn [timestamps_from nth_error] in Hk. injection Hk as <-.
    cbn [start_ms end_ms]. rewrite Nat.add_0_r.
    change (advance b (cursor b i)) with (cursor b (S i)).
    rewrite (ms_exact i T), (ms_exact (S i) T) by (assumption || lia).
    split; [reflexivity |]. do 2 f_equal. lia.
  - cbn [timestamps_from nth_error] in Hk.
    replace (i + S k)%nat with (S i + k)%nat by lia.
    apply IH; [lia | assumption].
Qed.

End ExactLines.

Lemma binary_tempos_checked : forallb binary_tempo_check binary_tempos = true.
Proof. vm_compute. reflexivity. Qed.

(** X11: at a tempo whose line length is a binary fraction of a second
    (60, 64, 80, 96, 120, 128 or 160 after clamping; 96 is the default) and
    for lyrics of at most [2 ^ 32] lines, the timestamps are exact: line
    [i] runs from [floor(120000 * i / T)] to [floor(120000 * (i + 1) / T)]
    milliseconds. *)
Theorem binary_tempo_exact_timestamps
  (MOCK_MODE : bool) (req : MelodyPreviewRequest) :
  In (effective_tempo (tempo req)) binary_tempos ->
  Z.of_nat (List.length (lines_or_fallback (lyrics req))) <= 2 ^ 32 ->
  exists res,
    generate_melody_preview MOCK_MODE req = Ok res /\
    forall (i : nat) (ts : TimestampItem),
      nth_error (timestamps res) i = Some ts ->
      start_ms ts = 120000 * Z.of_nat i / effective_tempo (tempo req) /\
      end_ms ts = 120000 * (Z.of_nat i + 1) / effective_tempo (tempo req).
Proof.
  intros HT Hlen.
  destruct (generate_melody_preview_ok MOCK_MODE req) as (b & Hb1 & Hb & Hres).
  eexists. split; [exact Hres |]. cbn [timestamps].
  pose proof binary_tempos_checked as Hc. rewrite forallb_forall in Hc.
  specialize (Hc _ HT). unfold binary_tempo_check in Hc.
  change (beat_at (effective_tempo (tempo req))) with (beat_sec_of (tempo req)) in Hc.
  rewrite Hb1 in Hc. apply andb_prop in Hc. destruct Hc as [Hmod HD].
  pose proof (effective_tempo_range (tempo req)) as Hr.
  set (T := effective_tempo (tempo req)) in *.
  assert (122880 / T * T = 122880) as HnT.
  { pose proof (Z.div_mod 122880 T ltac:(lia)) as Hdm.
    apply Z.eqb_eq in Hmod. lia. }
  assert (0 < 122880 / T <= 2 ^ 11) as Hn.
  { split; [apply Z.div_str_pos; lia |].
    apply Z.div_le_upper_bound; lia. }
  apply Z.eqb_eq in HD. intros i ts Hi.
  apply (timestamps_from_exact b Hb (122880 / T) Hn HD T
           (lines_or_fallback (lyrics req)) 0 i ts);
    [lia | assumption | assumption | assumption].
Qed.

Lemma binary_tempo_exact_timestamps_witness :
  exists res,
    generate_melody_preview true (request hello_world None) = Ok res /\
    forall (i : nat) (ts : TimestampItem),
      nth_error (timestamps res) i = Some ts ->
      start_ms ts = 120000 * Z.of_nat i / 96 /\
      end_ms ts = 120000 * (Z.of_nat i + 1) / 96.
Proof.
  apply (binary_tempo_exact_timestamps true (request hello_world None)).
  - right; right; right; left. reflexivity.
  - vm_compute. discriminate.
Defined.

(** * Properties of the diagnostics endpoint *)

Section Diagnostics.

Lemma firstn_length_le {A : Type} (k : nat) (l : list A) :
  (List.length (firstn k l) <= k)%nat.
Proof. rewrite length_firstn. lia. Qed.

Lemma error_text_length (prefix text : str) :
  (List.length (prefix ++ firstn 50 text) <= List.length prefix + 50)%nat.
Proof.
  rewrite length_app. pose proof (firstn_length_le 50 text). lia.
Qed.

End Diagnostics.

(** X12: the [database_url] and [database_name] of the diagnostics report
    come from the environment alone: each is ["Set"] when the variable is
    set and not empty and ["Not Set"] otherwise, whatever the import of the
    database gave; the name of the database object and the mark
    ["Configured"] never reach the report. *)
Theorem diagnostics_env_fields
  (import_db : import_outcome) (environ : string -> option str) :
  database_url (test_database import_db environ)
  = Some (if getenv_truthy environ "DATABASE_URL"
          then check_mark ++ of_string " Set"
          else cross_mark ++ of_string " Not Set") /\
  database_name (test_database import_db environ)
  = Some (if getenv_truthy environ "DATABASE_NAME"
          then check_mark ++ of_string " Set"
          else cross_mark ++ of_string " Not Set") /\
  forall import_db',
    database_url (test_database import_db' environ)
    = database_url (test_database import_db environ) /\
    database_name (test_database import_db' environ)
    = database_name (test_database import_db environ).
Proof.
  repeat split.
Qed.

(** X13: the report lists at most 10 collections: the first 10 names that
    [list_collection_names()] returned, when the database object was
    imported and both its name and its collections could be read, and none
    in every other case. *)
Theorem diagnostics_collections
  (import_db : import_outcome) (environ : string -> option str) :
  (List.length (collections (test_database import_db environ)) <= 10)%nat /\
  collections (test_database import_db environ)
  = match import_db with
    | Imported (Some db) =>
        match db_name db, list_collection_names db with
        | AttrRaises _, _ => []
        | _, Returns names => firstn 10 names
        | _, Raises _ => []
        end
    | _ => []
    end.
Proof.
  destruct import_db as [e | [[nm lc] |]];
    [| destruct nm as [| v | e]; destruct lc as [names | e'] |];
    unfold test_database, on_exception; cbn [db_name list_collection_names];
    try destruct (is_import_error e);
    cbn [collections set_database set_database_url set_database_name
           set_connection_status set_collections];
    (split; [try apply firstn_length_le; cbn [List.length]; lia | reflexivity]).
Qed.

(** X14: the [database] text of the report is never longer than 75
    characters: the text of an exception is cut after 50 characters. *)
Theorem diagnostics_database_text_bounded
  (import_db : import_outcome) (environ : string -> option str) :
  (List.length (database (test_database import_db environ)) <= 75)%nat.
Proof.
  destruct import_db as [e | [[nm lc] |]];
    [| destruct nm as [| v | e]; destruct lc as [names | e'] |];
    unfold test_database, on_exception; cbn [db_name list_collection_names];
    try destruct (is_import_error e);
    cbn [database set_database set_database_url set_database_name
           set_connection_status set_collections];
    rewrite ?app_assoc;
    first [ eapply Nat.le_trans; [apply error_text_length | vm_compute; lia]
          | vm_compute; lia ].
Qed.

(** X15: [connection_status] is ["Connected"] exactly when a database
    object was imported and its name could be read, and ["Not Connected"]
    otherwise; a failure of [list_collection_names()] leaves it
    ["Connected"], and [backend] always reads ["Running"]. *)
Theorem diagnostics_connection_status
  (import_db : import_outcome) (environ : string -> option str) :
  backend (test_database import_db environ) = check_mark ++ of_string " Running" /\
  connection_status (test_database import_db environ)
  = match import_db with
    | Imported (Some db) =>
        match db_name db with
        | AttrRaises _ => of_string "Not Connected"
        | _ => of_string "Connected"
        end
    | _ => of_string "Not Connected"
    end.
Proof.
  destruct import_db as [e | [[nm lc] |]];
    [| destruct nm as [| v | e]; destruct lc as [names | e'] |];
    unfold test_database, on_exception; cbn [db_name list_collection_names];
    try destruct (is_import_error e); split; reflexivity.
Qed.

(** * The order of the note times *)

Section Locations.

Lemma loc_inv_step (A B : Z) (mrs : shr_record) :
  0 < B -> loc_inv A B mrs -> loc_inv A (2 * B) (shr_1 mrs).
Proof.
  intros HB (R & HR & Hsm & Heq & Hr & Hs).
  destruct mrs as [sm r s]. cbn [shr_m shr_r shr_s] in *.
  rewrite shr_1_nonneg by assumption. unfold loc_inv.
  pose proof (Z.div_mod sm 2 ltac:(lia)) as Hdm.
  pose proof (Zmod_odd sm) as Hodd.
  assert (0 <= sm / 2) as Hq by (apply Z.div_pos; lia).
  exists (R + (if Z.odd sm then B else 0)). cbn [shr_m shr_r shr_s].
  subst r s.
  destruct (Z.odd sm);
    destruct (Z.leb_spec B (2 * R)); destruct (Z.eqb_spec R 0);
    destruct (Z.eqb_spec (2 * R) B);
    repeat match goal with
      | |- context [Z.leb ?a ?b] => destruct (Z.leb_spec a b)
      | |- context [Z.eqb ?a ?b] => destruct (Z.eqb_spec a b)
      end;
    cbn [negb orb]; repeat split; try reflexivity; try lia.
Qed.

Lemma loc_inv_iter (A B : Z) (mrs : shr_record) (n : nat) :
  0 < B -> loc_inv A B mrs ->
  loc_inv A (B * 2 ^ Z.of_nat n) (Nat.iter n shr_1 mrs).
Proof.
  intros HB H. induction n as [| n IH].
  - cbn [Nat.iter Z.of_nat]. change (2 ^ 0) with 1. rewrite Z.mul_1_r. assumption.
  - rewrite Nat.iter_succ, Nat2Z.inj_succ, Z.pow_succ_r by lia.
    replace (B * (2 * 2 ^ Z.of_nat n)) with (2 * (B * 2 ^ Z.of_nat n)) by ring.
    apply loc_inv_step; [| assumption].
    pose proof (pow2_pos (Z.of_nat n) ltac:(lia)). nia.
Qed.

Lemma loc_inv_round (A B : Z) (mrs : shr_record) :
  0 < B -> loc_inv A B mrs ->
  round_nearest_even (shr_m mrs) (loc_of_shr_record mrs) = rne_div A B.
Proof.
  intros HB (R & HR & Hsm & Heq & Hr & Hs).
  assert (A / B = shr_m mrs) as Hq
    by (symmetry; apply (Z.div_unique A B (shr_m mrs) R); lia).
  assert (A mod B = R) as Hrem
    by (symmetry; apply (Z.mod_unique A B (shr_m mrs) R); lia).
  unfold rne_div. rewrite Hq, Hrem.
  destruct mrs as [sm r s]. cbn [shr_m shr_r shr_s] in *. subst r s.
  destruct (Z.compare_spec (2 * R) B);
    destruct (Z.leb_spec B (2 * R)); destruct (Z.eqb_spec R 0);
    destruct (Z.eqb_spec (2 * R) B); cbn [negb orb loc_of_shr_record round_nearest_even];
    try reflexivity; try lia.
Qed.

(** The location of a division by 1000 describes its remainder. *)
Lemma loc_inv_division (q r : Z) :
  0 <= q -> 0 <= r < 1000 ->
  loc_inv (q * 1000 + r) 1000 (shr_record_of_loc q (new_location 1000 r)).
Proof.
  intros Hq Hr. exists r.
  change (new_location 1000 r) with (new_location_even 1000 r).
  unfold new_location_even.
  destruct (Z.eqb_spec r 0) as [-> | Hr0].
  - cbn. repeat split; lia.
  - destruct (Z.compare_spec (2 * r) 1000) as [He | He | He];
      cbn [shr_record_of_loc shr_m shr_r shr_s];
      destruct (Z.leb_spec 1000 (2 * r)); destruct (Z.eqb_spec r 0);
      destruct (Z.eqb_spec (2 * r) 1000); cbn [negb orb];
      repeat split; try reflexivity; try lia.
Qed.

Lemma rne_div_mul (a b c : Z) :
  0 < b -> 0 < c -> rne_div (a * c) (b * c) = rne_div a b.
Proof.
  intros Hb Hc. unfold rne_div.
  rewrite Z.div_mul_cancel_r, Z.mul_mod_distr_r by lia.
  rewrite Z.mul_assoc, <- Zmult_compare_compat_r by lia.
  reflexivity.
Qed.

End Locations.

Section DecimalRounding.

(** The quotient of a moderate integer by 1000, as a float: a 53-bit
    mantissa [M] at an exponent [e], whose value is the quotient rounded at
    the binade [j] it falls in. *)
Lemma div_1000_value (s : bool) (k : positive) :
  Z.pos k < 2 ^ 66 ->
  exists (M : positive) (e j : Z),
    SFdiv prec emax (S754_finite s k 0) (S754_finite false 1000 0)
    = S754_finite s M e /\
    2 ^ 52 <= Z.pos M < 2 ^ 53 /\ -200 <= e <= 200 /\ -70 <= j <= 70 /\
    Z.pos M * 2 ^ (e + 200)
    = rne_div (Z.pos k * 2 ^ 70) (1000 * 2 ^ (70 + j)) * 2 ^ (j + 200) /\
    2 ^ 52 <= Z.pos k * 2 ^ 70 / (1000 * 2 ^ (70 + j)) < 2 ^ 53.
Proof.
  intros Hk. cbn [SFdiv]. unfold SFdiv_core_binary.
  change (Zdigits2 1000) with 10.
  rewrite (Zdigits2_pos_log2 (Z.pos k)) by lia.
  pose proof (Z.log2_nonneg (Z.pos k)) as Hlog0.
  pose proof (log2_lt (Z.pos k) 66 ltac:(lia) Hk) as Hlog66.
  pose proof (log2_spec_pos (Z.pos k) ltac:(lia)) as [Hklo Hkhi].
  rewrite fexp_normal by lia.
  set (e' := Z.min (Z.log2 (Z.pos k) + 1 + 0 - (10 + 0) - 53) (0 - 0)).
  assert (-62 <= e' <= 0) as He' by (subst e'; lia).
  set (m' := match 0 - 0 - e' with
             | 0 => Z.pos k
             | Z.pos _ => Z.shiftl (Z.pos k) (0 - 0 - e')
             | Z.neg _ => 0
             end).
  assert (m' = Z.pos k * 2 ^ (- e')) as Hm'.
  { subst m'. destruct (0 - 0 - e') as [| p | p] eqn:Hs; try lia.
    - replace (- e') with 0 by lia. change (2 ^ 0) with 1. lia.
    - rewrite Z.shiftl_mul_pow2 by lia. do 2 f_equal. lia. }
  clearbody m'.
  pose proof (pow2_pos (- e') ltac:(lia)) as HPs.
  assert (2 ^ 62 <= m' < 2 ^ 66) as Hm'r.
  { rewrite Hm'. destruct (Z.le_gt_cases (Z.log2 (Z.pos k)) 62) as [Hc | Hc].
    - assert (- e' = 62 - Z.log2 (Z.pos k)) as -> by (subst e'; lia).
      assert (2 ^ 62 = 2 ^ Z.log2 (Z.pos k) * 2 ^ (62 - Z.log2 (Z.pos k))) as E1
        by (rewrite <- Z.pow_add_r by lia; f_equal; lia).
      assert (2 ^ 63 = 2 ^ (Z.log2 (Z.pos k) + 1) * 2 ^ (62 - Z.log2 (Z.pos k))) as E2
        by (rewrite <- Z.pow_add_r by lia; f_equal; lia).
      pose proof (pow2_pos (62 - Z.log2 (Z.pos k)) ltac:(lia)) as HPP.
      split; [rewrite E1; nia |].
      apply Z.lt_trans with (2 ^ 63); [rewrite E2; nia | lia].
    - assert (- e' = 0) as -> by (subst e'; lia). change (2 ^ 0) with 1.
      assert (2 ^ 63 <= 2 ^ Z.log2 (Z.pos k)) by (apply Z.pow_le_mono_r; lia).
      lia. }
  pose proof (Z.div_mod m' 1000 ltac:(lia)) as Hdm.
  pose proof (Z.mod_pos_bound m' 1000 ltac:(lia)) as Hrb.
  assert (2 ^ 52 <= m' / 1000 < 2 ^ 57) as Hq.
  { split; [apply Z.div_le_lower_bound; lia | apply Z.div_lt_upper_bound; lia]. }
  unfold Z.div, Z.modulo in Hdm, Hrb, Hq.
  destruct (Z.div_eucl m' 1000) as [q r].
  replace (xorb s false) with s by (destruct s; reflexivity).
  destruct (normal_quotient q ltac:(lia)) as [Hn1 Hqn].
  pose proof (log2_lt q 57 ltac:(lia) ltac:(lia)) as Hlq.
  unfold binary_round_aux, shr_fexp.
  rewrite (Zdigits2_pos_log2 q) by lia. rewrite fexp_normal by lia.
  set (n1 := Z.log2 q - 52) in *.
  replace (Z.log2 q + 1 + e' - 53 - e') with n1 by lia.
  rewrite shr_nat, Z.max_l by lia.
  pose proof (pow2_pos n1 Hn1) as HPn.
  pose proof (loc_inv_iter (q * 1000 + r) 1000 _ (Z.to_nat n1) ltac:(lia)
                (loc_inv_division q r ltac:(lia) Hrb)) as Hinv.
  rewrite Z2Nat.id in Hinv by lia.
  replace (q * 1000 + r) with m' in Hinv by lia.
  rewrite (loc_inv_round m' (1000 * 2 ^ n1)) by (assumption || lia).
  pose proof (rne_div_range m' (1000 * 2 ^ n1)) as Hr1.
  assert (m' / (1000 * 2 ^ n1) = q / 2 ^ n1) as Hqq.
  { rewrite <- Z.div_div by lia. f_equal.
    symmetry. apply (Z.div_unique m' 1000 q r); lia. }
  rewrite Hqq in Hr1.
  set (M1 := rne_div m' (1000 * 2 ^ n1)) in *.
  set (j := n1 + e').
  assert (rne_div (Z.pos k * 2 ^ 70) (1000 * 2 ^ (70 + j)) = M1) as Hscale.
  { subst M1. rewrite <- (rne_div_mul m' (1000 * 2 ^ n1) (2 ^ (70 + e')))
      by (try apply pow2_pos; lia).
    f_equal.
    - rewrite Hm', <- Z.mul_assoc, <- Z.pow_add_r by lia. do 2 f_equal. lia.
    - rewrite <- Z.mul_assoc, <- Z.pow_add_r by lia. do 2 f_equal. subst j. lia. }
  assert (Z.pos k * 2 ^ 70 / (1000 * 2 ^ (70 + j)) = q / 2 ^ n1) as Hquot.
  { rewrite <- Hqq.
    pose proof (pow2_pos (70 + e') ltac:(lia)) as HPc.
    rewrite <- (Z.div_mul_cancel_r m' (1000 * 2 ^ n1) (2 ^ (70 + e'))) by lia.
    f_equal.
    - rewrite Hm', <- Z.mul_assoc, <- Z.pow_add_r by lia. do 2 f_equal. lia.
    - rewrite <- Z.mul_assoc, <- Z.pow_add_r by lia. do 2 f_equal. subst j. lia. }
  destruct (Z.eqb_spec M1 (2 ^ 53)) as [HM | HM].
  - rewrite HM.
    replace (Zdigits2 (2 ^ 53)) with 54 by reflexivity.
    rewrite fexp_normal by lia.
    replace (54 + (e' + n1) - 53 - (e' + n1)) with 1 by lia.
    cbn [shr_record_of_loc shr iter_pos].
    replace (shr_1 {| shr_m := 2 ^ 53; shr_r := false; shr_s := false |})
      with {| shr_m := 2 ^ 52; shr_r := false; shr_s := false |} by reflexivity.
    cbn [shr_m].
    replace (2 ^ 52) with (Z.pos (Z.to_pos (2 ^ 52))) at 1 by reflexivity.
    cbv iota beta.
    destruct (Z.leb_spec (e' + n1 + 1) (emax - prec)) as [_ | Hbad];
      [| unfold emax, prec in Hbad; lia].
    exists (Z.to_pos (2 ^ 52)), (e' + n1 + 1), j.
    split; [reflexivity |]. rewrite Hscale, Hquot, HM.
    change (Z.pos (Z.to_pos (2 ^ 52))) with (2 ^ 52).
    repeat (split; [lia |]). split; [| lia].
    replace (e' + n1 + 1 + 200) with (1 + (j + 200)) by (subst j; lia).
    rewrite Z.pow_add_r by (subst j; lia).
    change (2 ^ 53) with (2 ^ 52 * 2 ^ 1). ring.
  - assert (Z.log2 M1 = 52) as HlogM by (apply log2_bounds; lia).
    assert (0 < M1) as HMpos by lia.
    rewrite (Zdigits2_pos_log2 M1 HMpos), HlogM, fexp_normal by lia.
    replace (52 + 1 + (e' + n1) - 53 - (e' + n1)) with 0 by lia.
    cbn [shr_record_of_loc shr shr_m].
    clearbody M1. destruct M1 as [| p | p]; try lia. cbv iota beta.
    destruct (Z.leb_spec (e' + n1) (emax - prec)) as [_ | Hbad];
      [| unfold emax, prec in Hbad; lia].
    exists p, (e' + n1), j.
    split; [reflexivity |]. rewrite Hscale, Hquot.
    repeat (split; [lia |]). split; [| lia].
    do 2 f_equal. subst j. lia.
Qed.

End DecimalRounding.

Section RoundMonotone.

Lemma quotient_round_mono (N N' j j' : Z) :
  0 <= N <= N' -> -70 <= j <= 70 -> -70 <= j' <= 70 ->
  2 ^ 52 <= N / (1000 * 2 ^ (70 + j)) < 2 ^ 53 ->
  2 ^ 52 <= N' / (1000 * 2 ^ (70 + j')) < 2 ^ 53 ->
  rne_div N (1000 * 2 ^ (70 + j)) * 2 ^ (j + 200)
  <= rne_div N' (1000 * 2 ^ (70 + j')) * 2 ^ (j' + 200).
Proof.
  intros HN Hj Hj' Hq Hq'.
  pose proof (pow2_pos (70 + j) ltac:(lia)) as HP.
  pose proof (pow2_pos (70 + j') ltac:(lia)) as HP'.
  set (B := 1000 * 2 ^ (70 + j)) in *. set (B' := 1000 * 2 ^ (70 + j')) in *.
  assert (0 < B) as HB by (subst B; lia).
  assert (0 < B') as HB' by (subst B'; lia).
  pose proof (Z.mul_div_le N B HB) as HNlo.
  pose proof (Z.mul_succ_div_gt N' B' HB') as HNhi.
  pose proof (rne_div_range N B) as Hr.
  pose proof (rne_div_range N' B') as Hr'.
  pose proof (pow2_pos (j + 200) ltac:(lia)) as HPj.
  pose proof (pow2_pos (j' + 200) ltac:(lia)) as HPj'.
  assert (j <= j') as Hjj.
  { destruct (Z.le_gt_cases j j') as [H | H]; [assumption | exfalso].
    assert (2 * 2 ^ (70 + j') <= 2 ^ (70 + j)) as Hpw.
    { rewrite <- Z.pow_succ_r by lia. apply Z.pow_le_mono_r; lia. }
    assert (2 * B' <= B) as HBB by (subst B B'; lia).
    assert (2 ^ 53 * B' <= N) by nia.
    assert (N' < 2 ^ 53 * B') by nia.
    lia. }
  destruct (Z.eq_dec j j') as [<- | Hne].
  - fold B in Hr' |- *. apply Z.mul_le_mono_nonneg_r; [lia |].
    apply rne_div_mono; lia.
  - apply Z.le_trans with (2 ^ 53 * 2 ^ (j + 200));
      [apply Z.mul_le_mono_nonneg_r; lia |].
    apply Z.le_trans with (2 ^ 52 * 2 ^ (j' + 200));
      [| apply Z.mul_le_mono_nonneg_r; lia].
    rewrite <- !Z.pow_add_r by lia. apply Z.pow_le_mono_r; lia.
Qed.

(** Floats with full mantissas compare as their values do. *)
Lemma float_le_of_val (m m' : positive) (e e' : Z) :
  2 ^ 52 <= Z.pos m < 2 ^ 53 -> 2 ^ 52 <= Z.pos m' < 2 ^ 53 ->
  -200 <= e -> -200 <= e' ->
  Z.pos m * 2 ^ (e + 200) <= Z.pos m' * 2 ^ (e' + 200) ->
  float_le (S754_finite false m e) (S754_finite false m' e') = true.
Proof.
  intros Hm Hm' He He' Hv.
  unfold float_le, SFleb. cbn [SFcompare].
  pose proof (pow2_pos (e + 200) ltac:(lia)) as HP.
  pose proof (pow2_pos (e' + 200) ltac:(lia)) as HP'.
  destruct (Z.compare_spec e e') as [-> | Hlt | Hgt].
  - destruct (Pos.compare_cont Eq m m') eqn:Hc; try reflexivity.
    change (Pos.compare m m' = Gt) in Hc. apply Pos.compare_gt_iff in Hc.
    exfalso. nia.
  - reflexivity.
  - exfalso.
    assert (2 * 2 ^ (e' + 200) <= 2 ^ (e + 200)) as Hpw.
    { rewrite <- Z.pow_succ_r by lia. apply Z.pow_le_mono_r; lia. }
    nia.
Qed.

Lemma float_le_zero (r : float) :
  finite_nonneg r = true -> float_le (S754_zero false) r = true.
Proof. destruct r as [[] | | | [] m e]; try discriminate; reflexivity. Qed.

(** The integer that [round3] divides by 1000, from the value of [x]. *)
Lemma round3_unfold (m : positive) (e : Z) :
  -200 <= e ->
  round3 (S754_finite false m e)
  = match rne_div (1000 * val 200 (S754_finite false m e)) (2 ^ 200) with
    | Z.pos k' =>
        match SFdiv prec emax (S754_finite false k' 0) (S754_finite false 1000 0) with
        | S754_infinity _ => Raise OverflowError
        | r => Ok r
        end
    | _ => Ok (S754_zero false)
    end.
Proof.
  intros He. cbn [round3 val].
  assert (match e with
          | Z.neg p => rne_div (Z.pos m * 1000) (2 ^ Z.pos p)
          | _ => Z.pos m * 2 ^ e * 1000
          end = rne_div (1000 * (Z.pos m * 2 ^ (e + 200))) (2 ^ 200)) as ->;
    [| reflexivity].
  destruct e as [| p | p].
  - cbn [Z.add].
    replace (1000 * (Z.pos m * 2 ^ 200)) with (Z.pos m * 2 ^ 0 * 1000 * 2 ^ 200) by ring.
    rewrite <- (Z.mul_1_l (2 ^ 200)) at 2.
    rewrite rne_div_mul, rne_div_1 by lia. reflexivity.
  - rewrite Z.pow_add_r by lia.
    replace (1000 * (Z.pos m * (2 ^ Z.pos p * 2 ^ 200)))
      with (Z.pos m * 2 ^ Z.pos p * 1000 * 2 ^ 200) by ring.
    rewrite <- (Z.mul_1_l (2 ^ 200)) at 2.
    rewrite rne_div_mul, rne_div_1 by lia. reflexivity.
  - pose proof (pow2_pos (Z.pos p) ltac:(lia)) as HP.
    pose proof (pow2_pos (Z.neg p + 200) ltac:(lia)) as HP2.
    assert (2 ^ 200 = 2 ^ Z.pos p * 2 ^ (Z.neg p + 200)) as ->
      by (rewrite <- Z.pow_add_r by lia; f_equal; lia).
    replace (1000 * (Z.pos m * 2 ^ (Z.neg p + 200)))
      with (Z.pos m * 1000 * 2 ^ (Z.neg p + 200)) by ring.
    rewrite rne_div_mul by lia. reflexivity.
Qed.

(** [round(x, 3)] is monotone on the range of the note times. *)
Lemma round3_mono (x y : float) :
  in_range x -> in_range y -> val 200 x <= val 200 y ->
  exists rx ry, round3 x = Ok rx /\ round3 y = Ok ry /\ float_le rx ry = true.
Proof.
  intros Hx Hy Hv.
  destruct Hx as [-> | [Hx Hxv]].
  { destruct (round3_finite y Hy) as (ry & Hry & Hf).
    exists (S754_zero false), ry. split; [reflexivity |]. split; [assumption |].
    apply float_le_zero. assumption. }
  destruct (normal_val x Hx) as (m & e & -> & Hm & He & Hvx).
  destruct Hy as [-> | [Hy Hyv]].
  { cbn [val] in Hv. pose proof (pow2_pos (e + 200) ltac:(lia)). nia. }
  destruct (normal_val y Hy) as (m' & e' & -> & Hm' & He' & Hvy).
  rewrite !round3_unfold by lia.
  set (vx := val 200 (S754_finite false m e)) in *.
  set (vy := val 200 (S754_finite false m' e')) in *.
  pose proof (pow2_pos (e + 200) ltac:(lia)) as HPx.
  assert (0 < vx) as Hvx0 by (rewrite Hvx; nia).
  pose proof (rne_div_mono (1000 * vx) (1000 * vy) (2 ^ 200) ltac:(lia) ltac:(lia)) as Hk.
  pose proof (rne_div_range (1000 * vx) (2 ^ 200)) as Hrx.
  pose proof (rne_div_range (1000 * vy) (2 ^ 200)) as Hry.
  pose proof (Z.div_pos (1000 * vx) (2 ^ 200) ltac:(lia) ltac:(lia)) as Hqx.
  assert (1000 * vy / 2 ^ 200 <= 1000 * 2 ^ 54) as Hqy
    by (apply Z.div_le_upper_bound; lia).
  set (kx := rne_div (1000 * vx) (2 ^ 200)) in *.
  set (ky := rne_div (1000 * vy) (2 ^ 200)) in *.
  clearbody kx ky.
  destruct ky as [| py | py]; [| | lia].
  { assert (kx = 0) as -> by lia. do 2 eexists.
    split; [reflexivity |]. split; reflexivity. }
  destruct (div_1000_value false py ltac:(lia))
    as (My & ey & jy & Hdy & HMy & Hey & Hjy & Hvaly & Hquoty).
  rewrite Hdy.
  destruct kx as [| px | px]; [| | lia].
  { do 2 eexists. split; [reflexivity |]. split; reflexivity. }
  destruct (div_1000_value false px ltac:(lia))
    as (Mx & ex & jx & Hdx & HMx & Hex & Hjx & Hvalx & Hquotx).
  rewrite Hdx.
  do 2 eexists. split; [reflexivity |]. split; [reflexivity |].
  apply float_le_of_val; try lia.
  rewrite Hvalx, Hvaly.
  apply quotient_round_mono; try assumption. lia.
Qed.

End RoundMonotone.

Lemma all_tempos_offsets_check : forallb tempo_offsets_check all_tempos = true.
Proof. vm_compute. reflexivity. Qed.

Lemma beat_sec_of_offsets (tempo_ : option Z) (b : float) :
  beat_sec_of tempo_ = Ok b -> offsets_check b = true.
Proof.
  intros Hb.
  pose proof all_tempos_offsets_check as H. rewrite forallb_forall in H.
  specialize (H _ (in_all_tempos _ (effective_tempo_range tempo_))).
  unfold tempo_offsets_check in H.
  change (beat_at (effective_tempo tempo_)) with (beat_sec_of tempo_) in H.
  rewrite Hb in H. assumption.
Qed.

Section NoteOrder.

Variable b : float.
Hypothesis Hb : beat_check b = true.
Hypothesis Hoff : offsets_check b = true.

Lemma offset_in_range4 (s : nat) : (s < 4)%nat -> In (Z.of_nat s) (range 4).
Proof. intros Hs. eapply nth_error_In, nth_error_range4. eassumption. Qed.

Lemma offsets_sorted (s : nat) :
  (s < 3)%nat ->
  val 200 (mul (mul (of_Z (Z.of_nat s)) step) b)
  <= val 200 (mul (mul (of_Z (Z.of_nat (S s))) step) b).
Proof.
  intros Hs. unfold offsets_check in Hoff. cbv zeta in Hoff.
  repeat (apply andb_prop in Hoff; destruct Hoff as [Hoff ?]).
  do 3 (destruct s as [| s]; [cbn [Z.of_nat Pos.of_succ_nat Pos.succ]; lia |]). lia.
Qed.

Lemma last_offset_below_line :
  val 200 (mul (mul (of_Z 3) step) b) <= val 200 (mul (of_Z dur_beats) b).
Proof.
  unfold offsets_check in Hoff. cbv zeta in Hoff.
  apply andb_prop in Hoff. destruct Hoff as [_ H]. lia.
Qed.

Lemma note_input_val (i s : nat) :
  (s < 4)%nat ->
  in_range (add (cursor b i) (mul (mul (of_Z (Z.of_nat s)) step) b)) /\
  val 200 (add (cursor b i) (mul (mul (of_Z (Z.of_nat s)) step) b))
  = rnd (val 200 (cursor b i) + val 200 (mul (mul (of_Z (Z.of_nat s)) step) b)).
Proof.
  intros Hs.
  pose proof (cursor_in_range b Hb i) as Hc.
  pose proof (step_offset_small b Hb _ (offset_in_range4 s Hs)) as Ho.
  split; [apply add_in_range | apply add_val]; assumption.
Qed.

Lemma note_inputs_step (i s : nat) :
  (s < 3)%nat ->
  val 200 (add (cursor b i) (mul (mul (of_Z (Z.of_nat s)) step) b))
  <= val 200 (add (cursor b i) (mul (mul (of_Z (Z.of_nat (S s))) step) b)).
Proof.
  intros Hs.
  rewrite (proj2 (note_input_val i s ltac:(lia))).
  rewrite (proj2 (note_input_val i (S s) ltac:(lia))).
  pose proof (val_nonneg 200 (cursor b i)).
  pose proof (val_nonneg 200 (mul (mul (of_Z (Z.of_nat s)) step) b)).
  apply rnd_mono; [lia |]. pose proof (offsets_sorted s Hs). lia.
Qed.

Lemma note_inputs_next_line (i : nat) :
  val 200 (add (cursor b i) (mul (mul (of_Z (Z.of_nat 3)) step) b))
  <= val 200 (add (cursor b (S i)) (mul (mul (of_Z (Z.of_nat 0)) step) b)).
Proof.
  pose proof (add_in_range (cursor b (S i)) _ (cursor_in_range b Hb (S i))
                (step_offset_small b Hb _ (offset_in_range4 0 ltac:(lia))))
    as [_ Hge].
  eapply Z.le_trans; [| exact Hge].
  rewrite (proj2 (note_input_val i 3 ltac:(lia))), (cursor_step b Hb).
  pose proof (val_nonneg 200 (cursor b i)).
  pose proof (val_nonneg 200 (mul (mul (of_Z (Z.of_nat 3)) step) b)).
  apply rnd_mono; [lia |]. pose proof last_offset_below_line.
  change (Z.of_nat 3) with 3. lia.
Qed.

Lemma note_times_le (i s i' s' : nat) :
  (s < 4)%nat -> (s' < 4)%nat ->
  val 200 (add (cursor b i) (mul (mul (of_Z (Z.of_nat s)) step) b))
  <= val 200 (add (cursor b i') (mul (mul (of_Z (Z.of_nat s')) step) b)) ->
  float_le (time (note_of b (cursor b i) (Z.of_nat i) (Z.of_nat s)))
           (time (note_of b (cursor b i') (Z.of_nat i') (Z.of_nat s'))) = true.
Proof.
  intros Hs Hs' Hv.
  destruct (round3_mono _ _ (proj1 (note_input_val i s Hs))
              (proj1 (note_input_val i' s' Hs')) Hv) as (rx & ry & Hrx & Hry & Hle).
  pose proof (note_of_time b Hb i s Hs) as Hx.
  pose proof (note_of_time b Hb i' s' Hs') as Hy.
  rewrite Hrx in Hx. rewrite Hry in Hy.
  replace (time (note_of b (cursor b i) (Z.of_nat i) (Z.of_nat s))) with rx
    by congruence.
  replace (time (note_of b (cursor b i') (Z.of_nat i') (Z.of_nat s'))) with ry
    by congruence.
  assumption.
Qed.

Lemma notes_from_chronological (lines : list str) (j : nat) (n n' : Note) :
  nth_error (notes_from b 0 lines) j = Some n ->
  nth_error (notes_from b 0 lines) (S j) = Some n' ->
  float_le (time n) (time n') = true.
Proof.
  intros Hn Hn'.
  assert (S j < 4 * List.length lines)%nat as Hlen.
  { rewrite <- (notes_from_length b 0). apply nth_error_Some. congruence. }
  pose proof (Nat.div_mod_eq j 4) as Hj.
  pose proof (Nat.mod_upper_bound j 4 ltac:(lia)) as Hs.
  set (k := (j / 4)%nat) in *. set (s := (j mod 4)%nat) in *.
  rewrite Hj, (notes_from_nth b lines 0 k s) in Hn by lia.
  cbn [Nat.add] in Hn.
  assert (n = note_of b (cursor b k) (Z.of_nat k) (Z.of_nat s)) as -> by congruence.
  destruct (Nat.eq_dec s 3) as [Hs3 | Hs3].
  - replace (S j) with (4 * S k + 0)%nat in Hn' by lia.
    rewrite (notes_from_nth b lines 0 (S k) 0) in Hn' by lia.
    cbn [Nat.add] in Hn'.
    assert (n' = note_of b (cursor b (S k)) (Z.of_nat (S k)) (Z.of_nat 0)) as ->
      by congruence.
    apply note_times_le; [lia | lia |]. rewrite Hs3. apply note_inputs_next_line.
  - replace (S j) with (4 * k + S s)%nat in Hn' by lia.
    rewrite (notes_from_nth b lines 0 k (S s)) in Hn' by lia.
    cbn [Nat.add] in Hn'.
    assert (n' = note_of b (cursor b k) (Z.of_nat k) (Z.of_nat (S s))) as ->
      by congruence.
    apply note_times_le; [lia | lia |]. apply note_inputs_step. lia.
Qed.

End NoteOrder.

(** X16: the notes of a response are in chronological order: the [time] of
    each note is at most the [time] of the note after it, for every
    request. *)
Theorem notes_chronological (MOCK_MODE : bool) (req : MelodyPreviewRequest) :
  exists res,
    generate_melody_preview MOCK_MODE req = Ok res /\
    forall (j : nat) (n n' : Note),
      nth_error (mj_notes (midiJson res)) j = Some n ->
      nth_error (mj_notes (midiJson res)) (S j) = Some n' ->
      float_le (time n) (time n') = true.
Proof.
  destruct (generate_melody_preview_ok MOCK_MODE req) as (b & Hb1 & Hb & Hres).
  pose proof (beat_sec_of_offsets _ _ Hb1) as Hoff.
  eexists. split; [exact Hres |]. cbn [midiJson mj_notes].
  intros j n n'. apply notes_from_chronological; assumption.
Qed.

(** * The gap between two notes *)

Lemma all_tempos_gap_check : forallb tempo_gap_check all_tempos = true.
Proof. vm_compute. reflexivity. Qed.

Lemma beat_sec_of_gap (tempo_ : option Z) (b : float) :
  beat_sec_of tempo_ = Ok b -> gap_check b = true.
Proof.
  intros Hb.
  pose proof all_tempos_gap_check as H. rewrite forallb_forall in H.
  specialize (H _ (in_all_tempos _ (effective_tempo_range tempo_))).
  unfold tempo_gap_check in H.
  change (beat_at (effective_tempo tempo_)) with (beat_sec_of tempo_) in H.
  rewrite Hb in H. assumption.
Qed.

Section DecimalError.

Lemma rne_div_error (a b : Z) :
  0 < b -> 2 * a - b <= 2 * (rne_div a b * b) <= 2 * a + b.
Proof.
  intros Hb.
  pose proof (Z.div_mod a b ltac:(lia)) as Hdm.
  pose proof (Z.mod_pos_bound a b Hb) as Hr.
  unfold rne_div.
  destruct (Z.compare_spec (2 * (a mod b)) b);
    [destruct (Z.even (a / b)) | |]; lia.
Qed.

(** [round(x, 3)] moves a moderate value by little more than half a
    millisecond, and gives [+0.0] or a normal float. *)
Lemma round3_error (x : float) :
  in_range x -> val 200 x <= 2 ^ 240 ->
  exists r,
    round3 x = Ok r /\
    (r = S754_zero false \/ normal r) /\
    1000 * val 200 x - 2 ^ 199 - 2 ^ 198 <= 1000 * val 200 r
    <= 1000 * val 200 x + 2 ^ 199 + 2 ^ 198.
Proof.
  intros [-> | [Hx _]] Hv.
  { exists (S754_zero false). split; [reflexivity |].
    split; [left; reflexivity | cbn; lia]. }
  destruct (normal_val x Hx) as (m & e & -> & Hm & He & Hvx).
  rewrite round3_unfold by lia.
  set (vx := val 200 (S754_finite false m e)) in *.
  pose proof (pow2_pos (e + 200) ltac:(lia)) as HPx.
  assert (0 < vx) as Hvx0 by (rewrite Hvx; nia).
  pose proof (rne_div_error (1000 * vx) (2 ^ 200) ltac:(lia)) as Hk.
  pose proof (rne_div_range (1000 * vx) (2 ^ 200)) as Hkr.
  pose proof (Z.div_pos (1000 * vx) (2 ^ 200) ltac:(lia) ltac:(lia)) as Hq0.
  assert (1000 * vx / 2 ^ 200 <= 1000 * 2 ^ 40) as Hq
    by (apply Z.div_le_upper_bound; lia).
  set (k := rne_div (1000 * vx) (2 ^ 200)) in *. clearbody k.
  destruct k as [| p | p]; [| | lia].
  { exists (S754_zero false). split; [reflexivity |].
    split; [left; reflexivity | cbn [val]; lia]. }
  destruct (div_1000_value false p ltac:(lia))
    as (M & e1 & j & Hd & HM & He1 & Hj & Hval & Hquot).
  rewrite Hd. exists (S754_finite false M e1). split; [reflexivity |].
  split; [right; cbn [normal]; lia |].
  cbn [val]. rewrite Hval.
  pose proof (pow2_pos (70 + j) ltac:(lia)) as HPj.
  pose proof (pow2_pos (j + 200) ltac:(lia)) as HPj2.
  set (B := 1000 * 2 ^ (70 + j)) in *.
  assert (0 < B) as HB by (subst B; lia).
  pose proof (rne_div_error (Z.pos p * 2 ^ 70) B HB) as HE.
  pose proof (Z.mul_div_le (Z.pos p * 2 ^ 70) B HB) as HBq.
  assert (B <= 2 ^ 69) as HBup by nia.
  set (M1 := rne_div (Z.pos p * 2 ^ 70) B) in *.
  assert (1000 * (M1 * 2 ^ (j + 200)) * 2 ^ 70 = M1 * B * 2 ^ 200) as Hunit.
  { subst B. replace (j + 200) with (70 + j + 130) by lia.
    rewrite Z.pow_add_r by lia. change (2 ^ 200) with (2 ^ 130 * 2 ^ 70). ring. }
  assert (B * 2 ^ 200 <= 2 ^ 269) as HB2 by lia.
  change (2 ^ 269) with (2 ^ 199 * 2 ^ 70) in HB2.
  assert (2 * (Z.pos p * 2 ^ 200) * 2 ^ 70 - 2 ^ 199 * 2 ^ 70
          <= 2 * (1000 * (M1 * 2 ^ (j + 200))) * 2 ^ 70
          <= 2 * (Z.pos p * 2 ^ 200) * 2 ^ 70 + 2 ^ 199 * 2 ^ 70) as Hs by nia.
  lia.
Qed.

End DecimalError.

Section NoteGap.

Lemma add_canonical (r d : float) :
  r = S754_zero false \/ normal r -> normal d ->
  exists M e,
    add r d = S754_finite false M e /\
    2 ^ 52 <= Z.pos M < 2 ^ 53 /\ -200 <= e /\
    Z.pos M * 2 ^ (e + 200) = rnd (val 200 r + val 200 d).
Proof.
  intros [-> | Hr] Hd.
  - destruct (normal_val d Hd) as (m & e & -> & Hm & He & Hv).
    exists m, e. split; [reflexivity |]. split; [lia |]. split; [lia |].
    rewrite Hv. cbn [val Z.add]. rewrite rnd_representable by lia. reflexivity.
  - destruct (add_normal r d Hr Hd) as (M & e & Heq & HM & He & Hval).
    exists M, e. split; [assumption |]. split; [lia |]. split; [lia |].
    apply Hval. lia.
Qed.

(** Two values more than a duration and 2 ms apart round to times that
    leave room for the duration. *)
Lemma note_pair_gap (x x' d : float) :
  in_range x -> in_range x' ->
  val 200 x <= 2 ^ 240 -> val 200 x' <= 2 ^ 240 ->
  normal d ->
  2 ^ 201 - 1000 * 2 ^ 188 <= 1000 * (val 200 x' - val 200 x - val 200 d) ->
  exists r r',
    round3 x = Ok r /\ round3 x' = Ok r' /\ float_le (add r d) r' = true.
Proof.
  intros Hx Hx' Hv Hv' Hd Hgap.
  destruct (round3_error x Hx Hv) as (r & Hr & Hrc & Hre).
  destruct (round3_error x' Hx' Hv') as (r' & Hr' & Hrc' & Hre').
  exists r, r'. split; [assumption |]. split; [assumption |].
  destruct (normal_val d Hd) as (md & ed & Hdeq & Hmd & Hed & Hvd).
  pose proof (pow2_pos (ed + 200) ltac:(lia)) as HPd.
  assert (0 < val 200 d) as Hd0 by (rewrite Hvd; nia).
  pose proof (val_nonneg 200 r) as Hr0.
  assert (val 200 r + val 200 d <= val 200 r') as Hsum by lia.
  destruct Hrc' as [-> | Hn']; [cbn [val] in Hsum; lia |].
  destruct (normal_val r' Hn') as (m' & e' & -> & Hm' & He' & Hvr').
  destruct (add_canonical r d Hrc Hd) as (M & e & -> & HM & He & Hval).
  apply float_le_of_val; try lia.
  rewrite Hval, <- (rnd_representable (Z.pos m') (e' + 200)) by lia.
  apply rnd_mono; [lia |]. rewrite <- Hvr'. exact Hsum.
Qed.

Variable b : float.
Hypothesis Hb : beat_check b = true.
Hypothesis Hmore : beat_check_more b = true.
Hypothesis Hgap : gap_check b = true.

Lemma gap_facts :
  exists d,
    round3 (mul (mul step b) (literal 9 10)) = Ok d /\ normal d /\
    (forall s : nat, (s < 3)%nat ->
       2 ^ 201 <= 1000 * (val 200 (mul (mul (of_Z (Z.of_nat (S s))) step) b)
                          - val 200 (mul (mul (of_Z (Z.of_nat s)) step) b)
                          - val 200 d)) /\
    2 ^ 201 <= 1000 * (val 200 (mul (of_Z dur_beats) b)
                       - val 200 (mul (mul (of_Z 3) step) b) - val 200 d).
Proof.
  unfold gap_check in Hgap. cbv zeta in Hgap.
  destruct (round3 (mul (mul step b) (literal 9 10))) as [d |]; [| discriminate].
  exists d. split; [reflexivity |].
  apply andb_prop in Hgap. destruct Hgap as [H H3].
  apply andb_prop in H. destruct H as [Hn Hs].
  split; [apply is_normal_spec; assumption |]. split; [| lia].
  rewrite forallb_forall in Hs. intros s Hlt.
  assert (In (Z.of_nat s) (range 3)) as Hin.
  { apply (nth_error_In (range 3) s).
    do 3 (destruct s as [| s]; [reflexivity |]). lia. }
  specialize (Hs _ Hin).
  replace (Z.of_nat (S s)) with (Z.of_nat s + 1) by lia. lia.
Qed.

Lemma small_addend_val (c : float) : small_addend c -> val 200 c <= 2 ^ 201.
Proof. intros [-> | [_ H]]; [cbn; lia | assumption]. Qed.

Lemma note_input_bounds (i s : nat) :
  Z.of_nat i <= 2 ^ 32 -> (s < 4)%nat ->
  in_range (add (cursor b i) (mul (mul (of_Z (Z.of_nat s)) step) b)) /\
  val 200 (add (cursor b i) (mul (mul (of_Z (Z.of_nat s)) step) b)) <= 2 ^ 240 /\
  2 * (val 200 (cursor b i) + val 200 (mul (mul (of_Z (Z.of_nat s)) step) b))
  - 2 ^ 187
  <= 2 * val 200 (add (cursor b i) (mul (mul (of_Z (Z.of_nat s)) step) b))
  <= 2 * (val 200 (cursor b i) + val 200 (mul (mul (of_Z (Z.of_nat s)) step) b))
     + 2 ^ 187.
Proof.
  intros Hi Hs.
  destruct (note_input_val b Hb i s Hs) as [Hr Hv].
  pose proof (cursor_upper b Hb Hmore i Hi) as Hup.
  pose proof (val_nonneg 200 (cursor b i)) as Hc0.
  pose proof (val_nonneg 200 (mul (mul (of_Z (Z.of_nat s)) step) b)) as Ho0.
  pose proof (small_addend_val _ (step_offset_small b Hb _ (offset_in_range4 s Hs)))
    as Ho.
  pose proof (rnd_error_below
                (val 200 (cursor b i)
                 + val 200 (mul (mul (of_Z (Z.of_nat s)) step) b)) 240
                ltac:(lia) ltac:(lia)) as He.
  change (2 ^ (240 - 53)) with (2 ^ 187) in He. rewrite <- Hv in He.
  split; [assumption |]. lia.
Qed.

Lemma note_gap_le (i s i' s' : nat) (d : float) :
  Z.of_nat i <= 2 ^ 32 -> Z.of_nat i' <= 2 ^ 32 -> (s < 4)%nat -> (s' < 4)%nat ->
  round3 (mul (mul step b) (literal 9 10)) = Ok d -> normal d ->
  2 ^ 201 - 1000 * 2 ^ 187 <=
    1000 * (val 200 (cursor b i') + val 200 (mul (mul (of_Z (Z.of_nat s')) step) b)
            - (val 200 (cursor b i) + val 200 (mul (mul (of_Z (Z.of_nat s)) step) b))
            - val 200 d) ->
  float_le
    (add (time (note_of b (cursor b i) (Z.of_nat i) (Z.of_nat s)))
         (duration (note_of b (cursor b i) (Z.of_nat i) (Z.of_nat s))))
    (time (note_of b (cursor b i') (Z.of_nat i') (Z.of_nat s'))) = true.
Proof.
  intros Hi Hi' Hs Hs' Hd Hnd Hg.
  destruct (note_input_bounds i s Hi Hs) as (Hr & Hv & He).
  destruct (note_input_bounds i' s' Hi' Hs') as (Hr' & Hv' & He').
  destruct (note_pair_gap _ _ d Hr Hr' Hv Hv' Hnd ltac:(lia))
    as (r & r' & Hx & Hx' & Hle).
  pose proof (note_of_time b Hb i s Hs) as Ht.
  pose proof (note_of_time b Hb i' s' Hs') as Ht'.
  pose proof (note_of_duration b Hb (cursor b i) (Z.of_nat i) (Z.of_nat s)) as Hdur.
  rewrite Hx in Ht. rewrite Hx' in Ht'. rewrite Hd in Hdur.
  replace (time (note_of b (cursor b i) (Z.of_nat i) (Z.of_nat s))) with r
    by congruence.
  replace (time (note_of b (cursor b i') (Z.of_nat i') (Z.of_nat s'))) with r'
    by congruence.
  replace (duration (note_of b (cursor b i) (Z.of_nat i) (Z.of_nat s))) with d
    by congruence.
  assumption.
Qed.

Lemma notes_from_gap (lines : list str) (j : nat) (n n' : Note) :
  Z.of_nat (List.length lines) <= 2 ^ 32 ->
  nth_error (notes_from b 0 lines) j = Some n ->
  nth_error (notes_from b 0 lines) (S j) = Some n' ->
  float_le (add (time n) (duration n)) (time n') = true.
Proof.
  intros HL Hn Hn'.
  assert (S j < 4 * List.length lines)%nat as Hlen.
  { rewrite <- (notes_from_length b 0). apply nth_error_Some. congruence. }
  destruct gap_facts as (d & Hd & Hnd & Hsteps & Hline).
  pose proof (Nat.div_mod_eq j 4) as Hj.
  pose proof (Nat.mod_upper_bound j 4 ltac:(lia)) as Hs.
  set (k := (j / 4)%nat) in *. set (s := (j mod 4)%nat) in *.
  rewrite Hj, (notes_from_nth b lines 0 k s) in Hn by lia.
  cbn [Nat.add] in Hn.
  assert (n = note_of b (cursor b k) (Z.of_nat k) (Z.of_nat s)) as -> by congruence.
  destruct (Nat.eq_dec s 3) as [Hs3 | Hs3].
  - replace (S j) with (4 * S k + 0)%nat in Hn' by lia.
    rewrite (notes_from_nth b lines 0 (S k) 0) in Hn' by lia.
    cbn [Nat.add] in Hn'.
    assert (n' = note_of b (cursor b (S k)) (Z.of_nat (S k)) (Z.of_nat 0)) as ->
      by congruence.
    apply (note_gap_le k s (S k) 0 d); try assumption; try lia.
    rewrite Hs3. change (Z.of_nat 3) with 3.
    pose proof (cursor_step b Hb k) as Hstep.
    pose proof (cursor_upper b Hb Hmore k ltac:(lia)) as Hup.
    pose proof (val_nonneg 200 (cursor b k)) as Hc0.
    pose proof (line_length_val b Hb Hmore) as [_ HD].
    pose proof (val_nonneg 200 (mul (of_Z dur_beats) b)) as HD0.
    pose proof (rnd_error_below
                  (val 200 (cursor b k) + val 200 (mul (of_Z dur_beats) b)) 240
                  ltac:(lia) ltac:(lia)) as He.
    change (2 ^ (240 - 53)) with (2 ^ 187) in He. rewrite <- Hstep in He.
    pose proof (val_nonneg 200 (mul (mul (of_Z (Z.of_nat 0)) step) b)).
    lia.
  - replace (S j) with (4 * k + S s)%nat in Hn' by lia.
    rewrite (notes_from_nth b lines 0 k (S s)) in Hn' by lia.
    cbn [Nat.add] in Hn'.
    assert (n' = note_of b (cursor b k) (Z.of_nat k) (Z.of_nat (S s))) as ->
      by congruence.
    apply (note_gap_le k s k (S s) d); try assumption; try lia.
    specialize (Hsteps s ltac:(lia)). lia.
Qed.

End NoteGap.

(** X17: for lyrics of at most [2 ^ 32] lines, the notes of a response never
    overlap: the [time] of a note plus its [duration], added as floats, is at
    most the [time] of the note after it, whatever the tempo. *)
Theorem notes_never_overlap (MOCK_MODE : bool) (req : MelodyPreviewRequest) :
  Z.of_nat (List.length (lines_or_fallback (lyrics req))) <= 2 ^ 32 ->
  exists res,
    generate_melody_preview MOCK_MODE req = Ok res /\
    forall (j : nat) (n n' : Note),
      nth_error (mj_notes (midiJson res)) j = Some n ->
      nth_error (mj_notes (midiJson res)) (S j) = Some n' ->
      float_le (add (time n) (duration n)) (time n') = true.
Proof.
  intros Hlen.
  destruct (generate_melody_preview_ok MOCK_MODE req) as (b & Hb1 & Hb & Hres).
  pose proof (beat_sec_of_more _ _ Hb1) as Hmore.
  pose proof (beat_sec_of_gap _ _ Hb1) as Hgap.
  eexists. split; [exact Hres |]. cbn [midiJson mj_notes].
  intros j n n'. apply notes_from_gap; assumption.
Qed.

Lemma notes_never_overlap_witness :
  exists res,
    generate_melody_preview true (request hello_world (Some 120)) = Ok res /\
    forall (j : nat) (n n' : Note),
      nth_error (mj_notes (midiJson res)) j = Some n ->
      nth_error (mj_notes (midiJson res)) (S j) = Some n' ->
      float_le (add (time n) (duration n)) (time n') = true.
Proof.
  apply (notes_never_overlap true (request hello_world (Some 120))).
  vm_compute. discriminate.
Defined.
